(** * Handel: candidate tree, level cursor and aggregator core

    A shallow embedding of [tree.go] and [handel.go].

    Conventions of the embedding.
    - Go's [int] is modelled by [Z].  The counters that the code increments
      ([msgRcvCt], [msgSentCt], [sendPeersCt], [sendPos]) go through
      [wrap_int], the 64-bit two's complement wrap-around of Go's [+].
      The narrowing conversions [byte(..)] and [int32(..)] are written out.
    - All quantities of the candidate tree lie between [0] and the registry
      size (see [walk_bounds]), and the registry is a slice held in memory,
      so [max+min] neither wraps nor leaves the range in which [float64]
      represents integers exactly (below [2^53]);
      [int(math.Floor(float64(max+min) / 2))] is therefore the floor
      division [(max + min) / 2].  Durations are converted to milliseconds
      by exact truncating division in the same way.
    - A Go [error] or [ok] result is a value of [result]; a run-time panic
      or a channel operation that cannot proceed is a value of [outcome].
    - Every entry point of the aggregator runs under its lock and is one
      function from state to [outcome] of state.  A pointer receiver
      becomes a returned copy; a value parameter or a loop variable of
      [range] is a copy whose changes are dropped, as in Go.  Logging is
      not part of the state.
    - Field names follow the source; [id], [c], [msg], [sig] and the
      fields of [candidateTree] and [MultiSignature] carry a prefix where
      they would clash with each other or with the standard library. *)

From Stdlib Require Import String ZArith List Lia Bool Sorted.
Import ListNotations.
Open Scope string_scope.
Open Scope Z_scope.

(** ** Results *)

Inductive result (A : Type) : Type :=
| Ok (a : A)
| Error (msg : string).
Arguments Ok {A} a.
Arguments Error {A} msg.

(** ** Identities and the registry *)

(** Modelled from the spec: the Identity interface is declared outside the
    sources; the spec gives it as the triple (id, address, public key). *)
Record Identity : Type := mkIdentity {
  ID : Z;
  Address : string;
  PublicKey : string
}.

(** The registry is an array of identities, as [P2PRegistry] in
    [simul/p2p/libp2p/node.go]. *)
Definition Registry : Type := list Identity.

Definition Size (r : Registry) : Z := Z.of_nat (length r).

Definition inBound (r : Registry) (idx : Z) : bool :=
  negb ((idx <? 0) || (idx >? Size r)).

(** [Identities(from, to)]: the slice [r[from:to]], or failure. *)
Definition Identities (r : Registry) (from to : Z) : option (list Identity) :=
  if negb (inBound r from) || negb (inBound r to) then None
  else if to <? from then None
  else Some (firstn (Z.to_nat (to - from)) (skipn (Z.to_nat from) r)).

(** Modelled from the spec: the test helper [FakeRegistry(n)] is not among
    the sources; it is the registry whose identity at index [i] has id [i]. *)
Definition FakeRegistry (n : nat) : Registry :=
  map (fun i => mkIdentity (Z.of_nat i) "" "") (seq 0 n).

(** A registry is dense when the identity at index [i] has id [i], so that
    [Identities from to] returns exactly the ids of [[from, to)]. *)
Definition dense (r : Registry) : Prop :=
  map ID r = map Z.of_nat (seq 0 (length r)).

(** Modelled from the spec: [log2] is declared outside the sources; the spec
    writes it as the ceiling of the binary logarithm. *)
Definition log2 (size : Z) : Z := Z.log2_up size.

(** ** tree.go *)

Record candidateTree : Type := mkCandidateTree {
  ct_id : Z;
  ct_bitsize : Z;
  ct_size : Z;
  ct_reg : Registry
}.

(** [uint(id)] is [id] itself for the non-negative ids of a registry. *)
Definition newCandidateTree (id : Z) (reg : Registry) : candidateTree :=
  {| ct_size := Size reg;
     ct_reg := reg;
     ct_id := id;
     ct_bitsize := log2 (Size reg) |}.

Definition isSet (nb index : Z) : bool :=
  Z.land (Z.shiftr nb index) 1 =? 1.

(** The loop of [FullRange].  [walk c maxIdx n min max] runs the loop from
    [idx = n - 1] downwards; as [maxIdx] is never negative, the loop has
    ended when [n] reaches [0]. *)
Fixpoint walk (c : candidateTree) (maxIdx : Z) (n : nat) (min max : Z)
  : Z * Z :=
  match n with
  | O => (min, max)
  | S i =>
    let idx := Z.of_nat i in
    if (idx >=? maxIdx) && (min <=? max) then
      let middle := (max + min) / 2 in
      let '(min', max') :=
        if isSet (ct_id c) idx then
          if idx =? maxIdx then (min, middle) else (middle, max)
        else
          if idx =? maxIdx then (middle, max) else (min, middle) in
      if max' =? min' then (min', max')
      else if (max' - 1 =? 0) || (min' =? ct_size c) then (min', max')
      else walk c maxIdx i min' max'
    else (min, max)
  end.

Definition FullRange (c : candidateTree) (level : Z)
  : result (list Identity) :=
  if (level <? 1) || (level >? ct_bitsize c) then
    Error "handel: invalid level for computing candidate set"
  else
    let '(min, max) :=
      walk c (level - 1) (Z.to_nat (ct_bitsize c)) 0 (ct_size c) in
    match Identities (ct_reg c) min max with
    | Some ids => Ok ids
    | None => Error "handel: registry can't find ids in range"
    end.

(** ** Machine integers *)

(** Go's [int] is 64 bits wide; [wrap_int] is the two's complement
    wrap-around of its arithmetic. *)
Definition max_int : Z := 2 ^ 63 - 1.
Definition min_int : Z := - 2 ^ 63.

Definition wrap_int (x : Z) : Z := (x + 2 ^ 63) mod 2 ^ 64 - 2 ^ 63.

Definition int_add (a b : Z) : Z := wrap_int (a + b).
Definition int_sub (a b : Z) : Z := wrap_int (a - b).
Definition int_mul (a b : Z) : Z := wrap_int (a * b).

(** [byte(x)] and the subtraction of bytes. *)
Definition byte_of (x : Z) : Z := x mod 256.
Definition byte_sub (a b : Z) : Z := (a - b) mod 256.

(** [int32(x)]. *)
Definition int32_of (x : Z) : Z := (x + 2 ^ 31) mod 2 ^ 32 - 2 ^ 31.

(** ** Panics and blocking *)

Inductive outcome (A : Type) : Type :=
| Return (a : A)
| Panic (msg : string)
| Blocked.
Arguments Return {A} a.
Arguments Panic {A} msg.
Arguments Blocked {A}.

Definition bind {A B : Type} (m : outcome A) (k : A -> outcome B)
  : outcome B :=
  match m with
  | Return a => k a
  | Panic msg => Panic msg
  | Blocked => Blocked
  end.

Notation "x <- m ;; k" := (bind m (fun x => k))
  (at level 61, m at next level, right associativity).
Notation "' pat <- m ;; k" := (bind m (fun x => let 'pat := x in k))
  (at level 61, pat pattern, m at next level, right associativity).

(** [l[i]] on a slice: panics out of range. *)
Definition index {A : Type} (l : list A) (i : Z) : outcome A :=
  if (i <? 0) || (i >=? Z.of_nat (length l)) then
    Panic "index out of range"
  else
    match nth_error l (Z.to_nat i) with
    | Some x => Return x
    | None => Panic "index out of range"
    end.

(** Running a loop body over the successive values of the loop variable. *)
Fixpoint foreach {S X : Type} (xs : list X) (body : S -> X -> outcome S)
  (s : S) : outcome S :=
  match xs with
  | [] => Return s
  | x :: xs' => s' <- body s x ;; foreach xs' body s'
  end.

(** ** Channels *)

Record chan (A : Type) : Type := mkChan {
  chan_buf : list A;
  chan_cap : Z;
  chan_closed : bool
}.
Arguments mkChan {A} _ _ _.
Arguments chan_buf {A} _.
Arguments chan_cap {A} _.
Arguments chan_closed {A} _.

Definition make_chan (A : Type) (cap : Z) : chan A := mkChan [] cap false.

(** [ch <- x]: panics on a closed channel, cannot proceed on a full one. *)
Definition chan_send {A : Type} (ch : chan A) (x : A) : outcome (chan A) :=
  if chan_closed ch then Panic "send on closed channel"
  else if Z.of_nat (length (chan_buf ch)) >=? chan_cap ch then Blocked
  else Return (mkChan (chan_buf ch ++ [x]) (chan_cap ch) false).

(** [close(ch)]: panics on a closed channel. *)
Definition chan_close {A : Type} (ch : chan A) : outcome (chan A) :=
  if chan_closed ch then Panic "close of closed channel"
  else Return (mkChan (chan_buf ch) (chan_cap ch) true).

(** [<-ch] by the reader of the channel. *)
Definition chan_recv {A : Type} (ch : chan A) : option (A * chan A) :=
  match chan_buf ch with
  | [] => None
  | x :: rest => Some (x, mkChan rest (chan_cap ch) (chan_closed ch))
  end.

(** ** Multi-signatures *)

(** Modelled from the spec: Signature, BitSet and MultiSignature are
    declared outside the sources.  A signature is kept as its bytes, a
    bit-set as a vector of booleans, a multi-signature as their pair. *)
Definition Signature : Type := string.

Definition BitSet : Type := list bool.

Definition bs_Cardinality (b : BitSet) : Z :=
  Z.of_nat (length (filter (fun x => x) b)).

Record MultiSignature : Type := mkMultiSignature {
  ms_BitSet : BitSet;
  ms_Signature : Signature
}.

Definition Cardinality (m : MultiSignature) : Z :=
  bs_Cardinality (ms_BitSet m).

(** ** The collaborators of the aggregator

    The signature store, the (de)serialisation of multi-signatures and the
    partitioner are interfaces implemented outside the sources. *)
Class Collaborators : Type := {
  signatureStore : Type;
  store_Store : signatureStore -> Z -> MultiSignature -> signatureStore;
  store_Combined : signatureStore -> Z -> MultiSignature;
  store_FullSignature : signatureStore -> MultiSignature;
  Unmarshal : string -> option MultiSignature;
  MarshalBinary : MultiSignature -> option string
}.

(** [PickNextAt(level, count)] of the partitioner, as [createLevels]
    calls it. *)
Definition Partitioner : Type := Z -> Z -> list Identity * bool.

(** ** handel.go: levels *)

Record Level : Type := mkLevel {
  level_id : Z;
  nodes : list Identity;
  sendStarted : bool;
  rcvCompleted : bool;
  sendPos : Z;
  sendPeersCt : Z;
  sendSigSize : Z
}.

Definition len {A : Type} (l : list A) : Z := Z.of_nat (length l).

Definition NewLevel (id : Z) (nodes : list Identity) : outcome Level :=
  if id <=? 0 then Panic "bad value for level id"
  else Return {| level_id := id;
                 nodes := nodes;
                 sendStarted := id =? 1;
                 rcvCompleted := id =? 1;
                 sendPos := 0;
                 sendPeersCt := 0;
                 sendSigSize := 0 |}.

(** [createLevels]: level [i+1] is built for [i = 0 .. log2(size) - 1]. *)
Fixpoint createLevels_from (r : Registry) (partitioner : Partitioner)
  (i : Z) (n : nat) : outcome (list Level) :=
  match n with
  | O => Return []
  | S n' =>
    let '(nodes, _) := partitioner (i + 1) (Size r + 1) in
    l <- NewLevel (i + 1) nodes ;;
    rest <- createLevels_from r partitioner (i + 1) n' ;;
    Return (l :: rest)
  end.

Definition createLevels (r : Registry) (partitioner : Partitioner)
  : outcome (list Level) :=
  createLevels_from r partitioner 0 (Z.to_nat (log2 (Size r))).

(** The loop of [PickNextAt]: [n] iterations from the cursor [pos]. *)
Fixpoint pick (nodes : list Identity) (n : nat) (pos : Z)
  : outcome (list Identity * Z) :=
  match n with
  | O => Return ([], pos)
  | S n' =>
    x <- index nodes pos ;;
    let pos1 := int_add pos 1 in
    let pos2 := if pos1 >=? len nodes then 0 else pos1 in
    '(rest, pos') <- pick nodes n' pos2 ;;
    Return (x :: rest, pos')
  end.

Definition PickNextAt (c : Level) (count : Z)
  : outcome (list Identity * bool * Level) :=
  let size := Z.min count (len (nodes c)) in
  if size <? 0 then Panic "makeslice: len out of range"
  else
    '(res, pos) <- pick (nodes c) (Z.to_nat size) (sendPos c) ;;
    Return (res, true,
            {| level_id := level_id c;
               nodes := nodes c;
               sendStarted := sendStarted c;
               rcvCompleted := rcvCompleted c;
               sendPos := pos;
               sendPeersCt := int_add (sendPeersCt c) size;
               sendSigSize := sendSigSize c |}).

Definition updateSigToSend (l : Level) (sig : MultiSignature)
  : bool * Level :=
  if sendSigSize l >=? Cardinality sig then (false, l)
  else
    let l1 := {| level_id := level_id l;
                 nodes := nodes l;
                 sendStarted := sendStarted l;
                 rcvCompleted := rcvCompleted l;
                 sendPos := sendPos l;
                 sendPeersCt := 0;
                 sendSigSize := Cardinality sig |} in
    if sendSigSize l1 =? len (nodes l1) then
      (true, {| level_id := level_id l1;
                nodes := nodes l1;
                sendStarted := true;
                rcvCompleted := rcvCompleted l1;
                sendPos := sendPos l1;
                sendPeersCt := sendPeersCt l1;
                sendSigSize := sendSigSize l1 |})
    else (false, l1).

(** The cursor of a level points into its candidates, whose number is a
    Go [int]. *)
Definition cursor_ok (l : Level) : Prop :=
  0 <= sendPos l < len (nodes l) /\ len (nodes l) <= max_int.

(** ** handel.go: the aggregator *)

Record HStats : Type := mkHStats {
  msgSentCt : Z;
  msgRcvCt : Z
}.

(** Modelled from the spec: Config is declared outside the sources.
    Durations are in nanoseconds, as [time.Duration]. *)
Record Config : Type := mkConfig {
  UpdatePeriod : Z;
  LevelTimeout : Z;
  CandidateCount : Z;
  ContributionsThreshold : Z -> Z;
  NewPartitioner : Z -> Registry -> Partitioner
}.

(** Modelled from the spec: a packet is (origin: int32, level: byte,
    multiSig: bytes). *)
Record Packet : Type := mkPacket {
  Origin : Z;
  PacketLevel : Z;
  MultiSig : string
}.

Definition Packet_wf (p : Packet) : Prop :=
  - 2 ^ 31 <= Origin p < 2 ^ 31 /\ 0 <= PacketLevel p < 256.

Record sigPair : Type := mkSigPair {
  origin : Z;
  level : Z;
  ms : MultiSignature
}.

(** Modelled from the spec: the verification pipeline is declared outside
    the sources; it is a FIFO of submitted triples with Start and Stop. *)
Record signatureProcessing : Type := mkProc {
  Incoming : list sigPair;
  proc_started : bool;
  proc_stopped : bool
}.

Definition newFifoProcessing : signatureProcessing := mkProc [] false false.

Definition proc_Start (p : signatureProcessing) : signatureProcessing :=
  mkProc (Incoming p) true (proc_stopped p).

Definition proc_Stop (p : signatureProcessing) : signatureProcessing :=
  mkProc (Incoming p) (proc_started p) true.

Definition proc_enqueue (p : signatureProcessing) (s : sigPair)
  : signatureProcessing :=
  mkProc (Incoming p ++ [s]) (proc_started p) (proc_stopped p).

(** Milliseconds of a duration, [int(d.Seconds() * 1000)]: the conversion
    to [int] truncates. *)
Definition millis (d : Z) : Z := Z.quot d 1000000.

Section Aggregator.

Context `{Collaborators}.

(** The network is kept as the log of what was handed to [Send]. *)
Record Handel : Type := mkHandel {
  stats : HStats;
  h_c : Config;
  net : list (list Identity * Packet);
  reg : Registry;
  h_id : Identity;
  h_msg : string;
  h_sig : Signature;
  store : signatureStore;
  proc : signatureProcessing;
  best : option MultiSignature;
  out : chan MultiSignature;
  done : bool;
  threshold : Z;
  ticker_stopped : bool;
  levels : list Level;
  startTime : Z
}.

Definition set_stats (h : Handel) (v : HStats) : Handel :=
  mkHandel v (h_c h) (net h) (reg h) (h_id h) (h_msg h) (h_sig h) (store h)
    (proc h) (best h) (out h) (done h) (threshold h) (ticker_stopped h)
    (levels h) (startTime h).

Definition set_net (h : Handel) (v : list (list Identity * Packet))
  : Handel :=
  mkHandel (stats h) (h_c h) v (reg h) (h_id h) (h_msg h) (h_sig h) (store h)
    (proc h) (best h) (out h) (done h) (threshold h) (ticker_stopped h)
    (levels h) (startTime h).

Definition set_store (h : Handel) (v : signatureStore) : Handel :=
  mkHandel (stats h) (h_c h) (net h) (reg h) (h_id h) (h_msg h) (h_sig h) v
    (proc h) (best h) (out h) (done h) (threshold h) (ticker_stopped h)
    (levels h) (startTime h).

Definition set_proc (h : Handel) (v : signatureProcessing) : Handel :=
  mkHandel (stats h) (h_c h) (net h) (reg h) (h_id h) (h_msg h) (h_sig h)
    (store h) v (best h) (out h) (done h) (threshold h) (ticker_stopped h)
    (levels h) (startTime h).

Definition set_best (h : Handel) (v : option MultiSignature) : Handel :=
  mkHandel (stats h) (h_c h) (net h) (reg h) (h_id h) (h_msg h) (h_sig h)
    (store h) (proc h) v (out h) (done h) (threshold h) (ticker_stopped h)
    (levels h) (startTime h).

Definition set_out (h : Handel) (v : chan MultiSignature) : Handel :=
  mkHandel (stats h) (h_c h) (net h) (reg h) (h_id h) (h_msg h) (h_sig h)
    (store h) (proc h) (best h) v (done h) (threshold h) (ticker_stopped h)
    (levels h) (startTime h).

Definition set_done (h : Handel) (v : bool) : Handel :=
  mkHandel (stats h) (h_c h) (net h) (reg h) (h_id h) (h_msg h) (h_sig h)
    (store h) (proc h) (best h) (out h) v (threshold h) (ticker_stopped h)
    (levels h) (startTime h).

Definition set_ticker_stopped (h : Handel) (v : bool) : Handel :=
  mkHandel (stats h) (h_c h) (net h) (reg h) (h_id h) (h_msg h) (h_sig h)
    (store h) (proc h) (best h) (out h) (done h) (threshold h) v
    (levels h) (startTime h).

Definition set_startTime (h : Handel) (v : Z) : Handel :=
  mkHandel (stats h) (h_c h) (net h) (reg h) (h_id h) (h_msg h) (h_sig h)
    (store h) (proc h) (best h) (out h) (done h) (threshold h)
    (ticker_stopped h) (levels h) v.

Definition sendTo (h : Handel) (lvl : Z) (m : MultiSignature)
  (ids : list Identity) : Handel :=
  let h1 :=
    set_stats h (mkHStats (int_add (msgSentCt (stats h)) 1)
                          (msgRcvCt (stats h))) in
  match MarshalBinary m with
  | None => h1
  | Some buff =>
    let packet := {| Origin := ID (h_id h1);
                     PacketLevel := byte_of lvl;
                     MultiSig := buff |} in
    set_net h1 (net h1 ++ [(ids, packet)])
  end.

(** [sendUpdate] takes its level by value: the cursor moved by
    [PickNextAt] belongs to the copy and is dropped on return. *)
Definition sendUpdate (h : Handel) (l : Level) (count : Z)
  : outcome Handel :=
  if negb (sendStarted l) || (sendPeersCt l >=? len (nodes l)) then Return h
  else
    let sp := store_Combined (store h) (byte_sub (byte_of (level_id l)) 1) in
    '(newNodes, _, _) <- PickNextAt l count ;;
    Return (sendTo h (level_id l) sp newNodes).

(** [parsePacket] returns the aggregator with its counter moved on and
    the parsed multi-signature or the error. *)
Definition parsePacket (h : Handel) (p : Packet)
  : Handel * result MultiSignature :=
  let h1 :=
    set_stats h (mkHStats (msgSentCt (stats h))
                          (int_add (msgRcvCt (stats h)) 1)) in
  if Origin p >=? int32_of (Size (reg h1)) then
    (h1, Error "packet's origin out of range")
  else
    let lvl := PacketLevel p in
    if (lvl <? 1) || (lvl >? log2 (Size (reg h1))) then
      (h1, Error "packet's level out of range")
    else
      match Unmarshal (MultiSig p) with
      | Some m => (h1, Ok m)
      | None => (h1, Error "unmarshal")
      end.

Definition NewPacket (h : Handel) (p : Packet) : outcome Handel :=
  if done h then Return h
  else
    let '(h1, r) := parsePacket h p in
    match r with
    | Error _ => Return h1
    | Ok m =>
      lvl <- index (levels h1) (byte_sub (PacketLevel p) 1) ;;
      if negb (rcvCompleted lvl) || true then
        Return (set_proc h1
                  (proc_enqueue (proc h1)
                     {| origin := Origin p;
                        level := PacketLevel p;
                        ms := m |}))
      else Return h1
    end.

(** [periodicUpdate] ranges over the levels by value: [lvl] is a copy of
    the array entry. *)
Definition periodicUpdate (h : Handel) (t : Z) : outcome Handel :=
  let msSinceStart := millis (t - startTime h) in
  foreach (levels h)
    (fun h' lvl =>
       let lvl1 :=
         if negb (sendStarted lvl)
            && (msSinceStart >=?
                int_mul (int_sub (level_id lvl) 1)
                        (millis (LevelTimeout (h_c h'))))
         then {| level_id := level_id lvl;
                 nodes := nodes lvl;
                 sendStarted := true;
                 rcvCompleted := rcvCompleted lvl;
                 sendPos := sendPos lvl;
                 sendPeersCt := sendPeersCt lvl;
                 sendSigSize := sendSigSize lvl |}
         else lvl in
       sendUpdate h' lvl1 1)
    h.

Definition Start (h : Handel) (now : Z) : outcome Handel :=
  let h1 := set_startTime h now in
  let h2 := set_proc h1 (proc_Start (proc h1)) in
  periodicUpdate h2 (startTime h2).

Definition Stop (h : Handel) : outcome Handel :=
  let h1 := set_ticker_stopped h true in
  let h2 := set_proc h1 (proc_Stop (proc h1)) in
  let h3 := set_done h2 true in
  ch <- chan_close (out h3) ;;
  Return (set_out h3 ch).

Definition newBest (h : Handel) (m : MultiSignature) : outcome Handel :=
  if done h then Return h
  else
    let h1 := set_best h (Some m) in
    ch <- chan_send (out h1) m ;;
    Return (set_out h1 ch).

Definition checkFinalSignature (h : Handel) (s : sigPair)
  : outcome Handel :=
  let sig := store_FullSignature (store h) in
  if bs_Cardinality (ms_BitSet sig) <? threshold h then Return h
  else
    match best h with
    | None => newBest h sig
    | Some b =>
      let newCard := Cardinality sig in
      let local := Cardinality b in
      if newCard >? local then newBest h sig else Return h
    end.

(** The loop variable of [checkCompletedLevel]:
    [i = from, from + 1, ..., to]. *)
Definition upto (from to : Z) : list Z :=
  map (fun k => from + Z.of_nat k) (seq 0 (Z.to_nat (to - from + 1))).

(** Both [lvl] variables of [checkCompletedLevel] are copies of entries
    of the levels array. *)
Definition checkCompletedLevel (h : Handel) (s : sigPair)
  : outcome Handel :=
  lvl <- index (levels h) (byte_sub (level s) 1) ;;
  let lvl1 :=
    if Cardinality (ms s) =? len (nodes lvl)
    then {| level_id := level_id lvl;
            nodes := nodes lvl;
            sendStarted := sendStarted lvl;
            rcvCompleted := true;
            sendPos := sendPos lvl;
            sendPeersCt := sendPeersCt lvl;
            sendSigSize := sendSigSize lvl |}
    else lvl in
  foreach (upto (level s + 1) (len (levels h)))
    (fun h' i =>
       lvl <- index (levels h') (i - 1) ;;
       let m := store_Combined (store h')
                  (byte_sub (byte_of (level_id lvl)) 1) in
       let '(completed, lvl') := updateSigToSend lvl m in
       if completed then sendUpdate h' lvl' (CandidateCount (h_c h'))
       else Return h')
    h.

(** One round of [rangeOnVerified]: the verified signature is stored,
    then handed to the two actors in their registration order. *)
Definition onVerified (h : Handel) (v : sigPair) : outcome Handel :=
  let h1 := set_store h (store_Store (store h) (level v) (ms v)) in
  h2 <- checkCompletedLevel h1 v ;;
  checkFinalSignature h2 v.

(** [NewHandel], with the configuration already resolved.  [newStore] is
    the store returned by [newReplaceStore]. *)
Definition NewHandel (r : Registry) (id : Identity) (msg : string)
  (s : Signature) (config : Config) (newStore : signatureStore)
  : outcome Handel :=
  let part := NewPartitioner config (ID id) r in
  let mySig := {| ms_BitSet := [true]; ms_Signature := s |} in
  lvls <- createLevels r part ;;
  Return {| stats := mkHStats 0 0;
            h_c := config;
            net := [];
            reg := r;
            h_id := id;
            h_msg := msg;
            h_sig := s;
            store := store_Store newStore 0 mySig;
            proc := newFifoProcessing;
            best := None;
            out := make_chan MultiSignature 10000;
            done := false;
            threshold := ContributionsThreshold config (Size r);
            ticker_stopped := false;
            levels := lvls;
            startTime := 0 |}.

(** The entry points of a running aggregator. *)
Inductive event : Type :=
| EvStart (now : Z)
| EvNewPacket (p : Packet)
| EvTick (t : Z)
| EvVerified (v : sigPair)
| EvStop
| EvRead.

Definition exec (h : Handel) (e : event) : outcome Handel :=
  match e with
  | EvStart now => Start h now
  | EvNewPacket p => NewPacket h p
  | EvTick t => periodicUpdate h t
  | EvVerified v => onVerified h v
  | EvStop => Stop h
  | EvRead =>
    match chan_recv (out h) with
    | Some (_, ch) => Return (set_out h ch)
    | None => Return h
    end
  end.

(** The aggregator states reached from a freshly built aggregator. *)
Inductive reachable (h0 : Handel) : Handel -> Prop :=
| reach_init : reachable h0 h0
| reach_step : forall h e h',
    reachable h0 h -> exec h e = Return h' -> reachable h0 h'.

(** The three functions that handle copies of levels. *)
Inductive call : Type :=
| CallPeriodicUpdate (t : Z)
| CallSendUpdate (l : Level) (count : Z)
| CallCheckCompletedLevel (s : sigPair).

Definition do_call (h : Handel) (c : call) : outcome Handel :=
  match c with
  | CallPeriodicUpdate t => periodicUpdate h t
  | CallSendUpdate l count => sendUpdate h l count
  | CallCheckCompletedLevel s => checkCompletedLevel h s
  end.

Definition do_calls (cs : list call) (h : Handel) : outcome Handel :=
  foreach cs do_call h.

(** [only_sent h h']: from [h] to [h'] nothing but the statistics and the
    log of sent packets has changed. *)
Definition only_sent (h h' : Handel) : Prop :=
  exists st sent, h' = set_net (set_stats h st) sent.

(** Every signature waiting on the output stream has at least [T]
    contributions, and [T] is the threshold of the aggregator. *)
Definition out_above (T : Z) (h : Handel) : Prop :=
  threshold h = T
  /\ Forall (fun m => T <= Cardinality m) (chan_buf (out h)).

End Aggregator.

(** The ids between [from] (included) and [to] (excluded). *)
Definition id_range (from to : Z) : list Z :=
  map Z.of_nat (seq (Z.to_nat from) (Z.to_nat (to - from))).

(** The index of the sibling subtree: the last bit flipped. *)
Definition sib (q : Z) : Z := if Z.odd q then q - 1 else q + 1.

(** The ids of a list of identities. *)
Definition ids_of (l : list Identity) : list Z := map ID l.

(** ** Further definitions

    The single lookup of the registry, and the closed forms in which the
    properties of the dispatch are stated. *)

(** [Identity(idx)] of the registry: the identity at an index, or
    failure. *)
Definition reg_Identity (r : Registry) (idx : Z) : option Identity :=
  if (idx <? 0) || (idx >=? Size r) then None
  else nth_error r (Z.to_nat idx).

(** The candidates of a level in the order in which the cursor meets
    them: from the cursor to the end, then from the start. *)
Definition rotate_from (l : Level) : list Identity :=
  (skipn (Z.to_nat (sendPos l)) (nodes l)
   ++ firstn (Z.to_nat (sendPos l)) (nodes l))%list.

(** The identities that [PickNextAt(count)] hands out. *)
Definition next_peers (l : Level) (count : Z) : list Identity :=
  firstn (Z.to_nat (Z.min count (len (nodes l)))) (rotate_from l).

(** A level as [NewLevel] builds it. *)
Definition fresh_level (id : Z) (nds : list Identity) : Level :=
  {| level_id := id;
     nodes := nds;
     sendStarted := id =? 1;
     rcvCompleted := id =? 1;
     sendPos := 0;
     sendPeersCt := 0;
     sendSigSize := 0 |}.

(** A level whose cursor can be used: it points into the candidates, or
    there is no candidate. *)
Definition level_ok (l : Level) : Prop :=
  cursor_ok l \/ nodes l = [].

Section Dispatch.

Context `{Collaborators}.

(** What [sendTo] hands to the network for a level: one packet with the
    combined signature below the level, or nothing when the signature does
    not marshal. *)
Definition sent_packets (h : Handel) (l : Level) (ids : list Identity)
  : list (list Identity * Packet) :=
  match MarshalBinary
          (store_Combined (store h) (byte_sub (byte_of (level_id l)) 1)) with
  | Some buff =>
    [(ids, {| Origin := ID (h_id h);
              PacketLevel := byte_of (level_id l);
              MultiSig := buff |})]
  | None => []
  end.

(** What a tick sends for one entry of the levels array, [ms]
    milliseconds after the start. *)
Definition tick_sends (h : Handel) (ms : Z) (l : Level)
  : list (list Identity * Packet) :=
  if (sendStarted l
      || (ms >=? int_mul (int_sub (level_id l) 1)
                         (millis (LevelTimeout (h_c h)))))
     && (sendPeersCt l <? len (nodes l))
  then sent_packets h l (next_peers l 1)
  else [].

(** What a verified signature makes [checkCompletedLevel] send for one
    entry of the levels array. *)
Definition burst_sends (h : Handel) (l : Level)
  : list (list Identity * Packet) :=
  let m := store_Combined (store h) (byte_sub (byte_of (level_id l)) 1) in
  if (sendSigSize l <? Cardinality m)
     && (Cardinality m =? len (nodes l))
     && (0 <? len (nodes l))
  then sent_packets h l (next_peers l (CandidateCount (h_c h)))
  else [].

(** The aggregator built over [r] with [config], at any later moment:
    registry, configuration and levels are those of the construction, and
    the output stream, of capacity 10000, is closed exactly when [done]
    is set. *)
Definition built (r : Registry) (config : Config) (lvls : list Level)
  (h : Handel) : Prop :=
  reg h = r /\ h_c h = config /\ levels h = lvls
  /\ chan_closed (out h) = done h /\ chan_cap (out h) = 10000.

(** The output stream carries signatures of increasing cardinality, none
    above the best one. *)
Definition out_increasing (h : Handel) : Prop :=
  StronglySorted (fun m1 m2 => Cardinality m1 < Cardinality m2)
                 (chan_buf (out h))
  /\ match best h with
     | Some b =>
       Forall (fun m => Cardinality m <= Cardinality b) (chan_buf (out h))
     | None => chan_buf (out h) = []
     end.

End Dispatch.

(** ** Sample collaborators

    A store that keeps every stored signature and combines the bit-sets of
    the levels below the requested one, a partitioner that hands out the
    full range of a level, and a small aggregator over four identities.
    They serve to run the model on concrete inputs. *)

Definition sample_Combined (st : list (Z * MultiSignature)) (k : Z)
  : MultiSignature :=
  {| ms_BitSet :=
       flat_map (fun e => if fst e <? k then ms_BitSet (snd e) else []) st;
     ms_Signature := "agg" |}.

Definition sample_collaborators : Collaborators :=
  {| signatureStore := list (Z * MultiSignature);
     store_Store := fun st l m => (st ++ [(l, m)])%list;
     store_Combined := sample_Combined;
     store_FullSignature := fun st => sample_Combined st 256;
     Unmarshal := fun b =>
       if String.eqb b "" then None
       else Some {| ms_BitSet := [true]; ms_Signature := b |};
     MarshalBinary := fun m => Some (ms_Signature m) |}.

(** Modelled from the spec: the binomial partitioner is declared outside
    the sources; it populates a level from [FullRange]. *)
Definition binomialPartitioner (id : Z) (r : Registry) : Partitioner :=
  fun level count =>
    match FullRange (newCandidateTree id r) level with
    | Ok ids => (firstn (Z.to_nat count) ids, true)
    | Error _ => ([], false)
    end.

(** The defaults of the spec: 50 ms, 100 ms, 10 and N/2 + 1. *)
Definition sample_config : Config :=
  {| UpdatePeriod := 50000000;
     LevelTimeout := 100000000;
     CandidateCount := 10;
     ContributionsThreshold := fun n => n / 2 + 1;
     NewPartitioner := binomialPartitioner |}.

Definition sample_handel : outcome (@Handel sample_collaborators) :=
  @NewHandel sample_collaborators (FakeRegistry 4) (mkIdentity 1 "" "")
    "msg" "sig1" sample_config [].

(** The aggregator that [sample_handel] builds, written out. *)
Definition sample_levels : list Level :=
  [ {| level_id := 1;
       nodes := [mkIdentity 0 "" ""];
       sendStarted := true;
       rcvCompleted := true;
       sendPos := 0;
       sendPeersCt := 0;
       sendSigSize := 0 |};
    {| level_id := 2;
       nodes := [mkIdentity 2 "" ""; mkIdentity 3 "" ""];
       sendStarted := false;
       rcvCompleted := false;
       sendPos := 0;
       sendPeersCt := 0;
       sendSigSize := 0 |} ].

Definition sample_h : @Handel sample_collaborators :=
  @mkHandel sample_collaborators
    (mkHStats 0 0) sample_config [] (FakeRegistry 4) (mkIdentity 1 "" "")
    "msg" "sig1"
    [(0, {| ms_BitSet := [true]; ms_Signature := "sig1" |})]
    newFifoProcessing None (make_chan MultiSignature 10000) false 3 false
    sample_levels 0.

Definition sample_level : Level :=
  {| level_id := 2;
     nodes := map (fun i => mkIdentity i "" "") [4; 5; 6];
     sendStarted := true;
     rcvCompleted := false;
     sendPos := 2;
     sendPeersCt := 0;
     sendSigSize := 1 |}.

Definition sample_ms (bits : BitSet) : MultiSignature :=
  {| ms_BitSet := bits; ms_Signature := "s" |}.

Definition sample_calls : list call :=
  [ CallPeriodicUpdate 1000000000;
    CallSendUpdate sample_level 2;
    CallCheckCompletedLevel (mkSigPair 0 1 (sample_ms [true; true])) ].

(** A verified signature of two contributions for level 2. *)
Definition sample_verified : sigPair :=
  mkSigPair 2 2 (sample_ms [true; true]).

(** A packet whose origin is not in the registry of four identities. *)
Definition sample_bad_packet : Packet :=
  {| Origin := 7; PacketLevel := 1; MultiSig := "x" |}.

(** The sample aggregator with a store that holds two contributions below
    level 2. *)
Definition sample_h_full : @Handel sample_collaborators :=
  @set_store sample_collaborators sample_h
    [(0, sample_ms [true; true])].

(** A verified signature for level 1. *)
Definition sample_verified_1 : sigPair := mkSigPair 0 1 (sample_ms [true]).

(** A packet that parses. *)
Definition sample_good_packet : Packet :=
  {| Origin := 2; PacketLevel := 2; MultiSig := "ms" |}.

(** * Properties *)

(** ** Candidate tree *)

Example isSet_0_0 : isSet 0 0 = false. Proof. reflexivity. Qed.
Example isSet_2_0 : isSet 2 0 = false. Proof. reflexivity. Qed.
Example isSet_2_1 : isSet 2 1 = true. Proof. reflexivity. Qed.
Example isSet_7_2 : isSet 7 2 = true. Proof. reflexivity. Qed.
Example isSet_7_4 : isSet 7 4 = false. Proof. reflexivity. Qed.

Lemma isSet_odd (a i : Z) : 0 <= i -> isSet a i = Z.odd (a / 2 ^ i).
Proof.
  intros Hi. unfold isSet.
  rewrite Z.shiftr_div_pow2 by assumption.
  change 1 with (Z.ones 1) at 1.
  rewrite Z.land_ones by lia.
  change (2 ^ 1) with 2.
  rewrite Zodd_mod.
  reflexivity.
Qed.

Lemma pow2_pos (n : Z) : 0 <= n -> 0 < 2 ^ n.
Proof. intros. apply Z.pow_pos_nonneg; lia. Qed.

Lemma pow2_succ_nat (i : nat) : 2 ^ Z.of_nat (S i) = 2 * 2 ^ Z.of_nat i.
Proof. rewrite Nat2Z.inj_succ, Z.pow_succ_r by lia. reflexivity. Qed.

Lemma div_pow2_succ_nat (a : Z) (i : nat) :
  a / 2 ^ Z.of_nat (S i) = a / 2 ^ Z.of_nat i / 2.
Proof.
  rewrite pow2_succ_nat, (Z.mul_comm 2).
  rewrite Z.div_div; [reflexivity | | lia].
  pose proof (pow2_pos (Z.of_nat i)); lia.
Qed.

Lemma sib_half (q : Z) : sib q / 2 = q / 2.
Proof.
  unfold sib. destruct (Z.odd q) eqn:E.
  - rewrite Zodd_mod in E. apply Z.eqb_eq in E.
    pose proof (Z.div_mod q 2). 
    assert (Hq : q - 1 = (q / 2) * 2) by lia.
    rewrite Hq, Z.div_mul; lia.
  - rewrite Zodd_mod in E. apply Z.eqb_neq in E.
    pose proof (Z.mod_pos_bound q 2).
    pose proof (Z.div_mod q 2).
    assert (Hq : q + 1 = 1 + (q / 2) * 2) by lia.
    rewrite Hq, Z.div_add; simpl; lia.
Qed.

Lemma sib_neq (q : Z) : sib q <> q.
Proof. unfold sib; destruct (Z.odd q); lia. Qed.

Lemma sib_of_half (u v : Z) : u / 2 = v / 2 -> u <> v -> u = sib v.
Proof.
  intros Hh Hn. unfold sib.
  pose proof (Z.div_mod u 2). pose proof (Z.div_mod v 2).
  pose proof (Z.mod_pos_bound u 2). pose proof (Z.mod_pos_bound v 2).
  destruct (Z.odd v) eqn:E; rewrite Zodd_mod in E;
    [apply Z.eqb_eq in E | apply Z.eqb_neq in E]; lia.
Qed.

(** Deciding a comparison of the code from linear facts. *)
Ltac zbool :=
  rewrite ?Z.geb_leb, ?Z.gtb_ltb;
  first [ apply Z.leb_le | apply Z.leb_gt | apply Z.ltb_lt | apply Z.ltb_ge
        | apply Z.eqb_eq | apply Z.eqb_neq ];
  lia.

(** Once the loop variable is below [maxIdx] the loop has ended. *)
Lemma walk_done (c : candidateTree) (maxIdx : Z) (n : nat) (min max : Z) :
  Z.of_nat n <= maxIdx -> walk c maxIdx n min max = (min, max).
Proof.
  intros Hn. destruct n as [|i]; [reflexivity|].
  simpl walk.
  replace (Z.of_nat i >=? maxIdx) with false; [reflexivity|].
  symmetry. zbool.
Qed.

(** The bounds of the walk never leave [[0, size]]. *)
Lemma walk_bounds (c : candidateTree) (maxIdx : Z) (n : nat) :
  forall min max, 0 <= min <= max -> max <= ct_size c ->
  0 <= fst (walk c maxIdx n min max)
       <= snd (walk c maxIdx n min max)
  /\ snd (walk c maxIdx n min max) <= ct_size c.
Proof.
  induction n as [|i IH]; intros min max Hm Hs; simpl walk; [simpl; lia|].
  destruct ((Z.of_nat i >=? maxIdx) && (min <=? max)); [|simpl; lia].
  assert (Hmid : min <= (max + min) / 2 <= max).
  { split.
    - apply Z.div_le_lower_bound; lia.
    - apply Z.div_le_upper_bound; lia. }
  set (middle := (max + min) / 2) in *.
  destruct (isSet (ct_id c) (Z.of_nat i)), (Z.of_nat i =? maxIdx);
    cbv zeta iota beta;
    repeat match goal with
           | |- context [if ?b then _ else _] => destruct b
           end;
    simpl fst; simpl snd; try lia; apply IH; lia.
Qed.

(** The walk for level [k], entered at bit [n - 1] with the aligned block
    of size [2^n] that holds the anchor, ends on the sibling block of size
    [2^(k-1)]. *)
Lemma walk_level (c : candidateTree) (k : Z) (n : nat) :
  forall min max,
    1 <= k <= Z.of_nat n ->
    0 <= ct_id c ->
    min = ct_id c / 2 ^ Z.of_nat n * 2 ^ Z.of_nat n ->
    max = min + 2 ^ Z.of_nat n ->
    max <= ct_size c ->
    walk c (k - 1) n min max
    = (2 ^ (k - 1) * sib (ct_id c / 2 ^ (k - 1)),
       2 ^ (k - 1) * sib (ct_id c / 2 ^ (k - 1)) + 2 ^ (k - 1)).
Proof.
  induction n as [|i IH]; intros min max Hk Ha Hmin Hmax Hs; [lia|].
  simpl walk.
  assert (Hp : 0 < 2 ^ Z.of_nat i) by (apply pow2_pos; lia).
  assert (Hq0 : 0 <= ct_id c / 2 ^ Z.of_nat i) by (apply Z.div_pos; lia).
  rewrite div_pow2_succ_nat in Hmin.
  rewrite pow2_succ_nat in Hmin, Hmax.
  set (q := ct_id c / 2 ^ Z.of_nat i) in *.
  set (P := 2 ^ Z.of_nat i) in *.
  pose proof (Z.div_mod q 2 ltac:(lia)) as Hdm.
  pose proof (Z.mod_pos_bound q 2 ltac:(lia)) as Hmb.
  assert (Hmid : (max + min) / 2 = min + P).
  { replace (max + min) with ((min + P) * 2) by lia.
    apply Z.div_mul; lia. }
  rewrite Hmid.
  replace (Z.of_nat i >=? k - 1) with true
    by (symmetry; zbool).
  replace (min <=? max) with true by (symmetry; zbool).
  cbv [andb].
  rewrite isSet_odd by lia. fold P q.
  assert (Hodd : Z.odd q = (q mod 2 =? 1)) by apply Zodd_mod.
  destruct (Z.eq_dec (Z.of_nat i) (k - 1)) as [Heq|Hne].
  - (* the last step: the choice is inverted *)
    rewrite (proj2 (Z.eqb_eq _ _) Heq).
    rewrite <- Heq. fold P q.
    assert (Hres :
      (if Z.odd q then (min, min + P) else (min + P, max))
      = (P * sib q, P * sib q + P)).
    { unfold sib. destruct (Z.odd q); symmetry in Hodd;
        [apply Z.eqb_eq in Hodd | apply Z.eqb_neq in Hodd];
        f_equal; nia. }
    destruct (Z.odd q); cbv zeta iota beta;
      repeat match goal with
             | |- context [if ?b then _ else _] => destruct b
             end;
      try exact Hres;
      rewrite walk_done by lia; exact Hres.
  - (* an earlier step: follow the bit of the anchor *)
    replace (Z.of_nat i =? k - 1) with false
      by (symmetry; zbool).
    assert (Hi : 1 <= Z.of_nat i) by lia.
    assert (HP2 : 2 <= P).
    { unfold P. replace (Z.of_nat i) with (Z.succ (Z.of_nat i - 1)) by lia.
      rewrite Z.pow_succ_r by lia.
      pose proof (pow2_pos (Z.of_nat i - 1)). lia. }
    assert (Hh0 : 0 <= q / 2) by (apply Z.div_pos; lia).
    assert (Hmin0 : 0 <= min) by nia.
    destruct (Z.odd q); symmetry in Hodd;
      [apply Z.eqb_eq in Hodd | apply Z.eqb_neq in Hodd];
      cbv zeta iota beta.
    + replace (max =? min + P) with false by (symmetry; zbool).
      replace (max - 1 =? 0) with false by (symmetry; zbool).
      replace (min + P =? ct_size c) with false
        by (symmetry; zbool).
      cbv [orb]. apply IH; try lia; fold q P; nia.
    + replace (min + P =? min) with false by (symmetry; zbool).
      replace (min + P - 1 =? 0) with false
        by (symmetry; zbool).
      replace (min =? ct_size c) with false
        by (symmetry; zbool).
      cbv [orb]. apply IH; try lia; fold q P; nia.
Qed.

(** *** Slices of a dense registry *)

Lemma firstn_seq_le (n s l : nat) :
  (n <= l)%nat -> firstn n (seq s l) = seq s n.
Proof.
  revert s l. induction n as [|n IH]; intros s l Hl; [reflexivity|].
  destruct l as [|l]; [lia|].
  simpl. f_equal. apply IH. lia.
Qed.

Lemma Identities_dense (r : Registry) (from to : Z) :
  dense r -> 0 <= from <= to -> to <= Size r ->
  exists ids, Identities r from to = Some ids
              /\ ids_of ids = id_range from to.
Proof.
  intros Hd Hft Hto. unfold Identities, inBound.
  replace (from <? 0) with false by (symmetry; zbool).
  replace (from >? Size r) with false by (symmetry; zbool).
  replace (to <? 0) with false by (symmetry; zbool).
  replace (to >? Size r) with false by (symmetry; zbool).
  replace (to <? from) with false by (symmetry; zbool).
  cbv [orb negb].
  eexists; split; [reflexivity|].
  unfold ids_of, id_range.
  rewrite <- firstn_map, <- skipn_map, Hd.
  rewrite skipn_map, firstn_map, skipn_seq, firstn_seq_le.
  - reflexivity.
  - unfold Size in Hto. lia.
Qed.

Lemma in_id_range (from to x : Z) :
  0 <= from -> In x (id_range from to) <-> from <= x < to.
Proof.
  intros Hf. unfold id_range. rewrite in_map_iff. split.
  - intros [n [Hn Hin]]. apply in_seq in Hin. lia.
  - intros Hx. exists (Z.to_nat x). split; [lia|]. apply in_seq. lia.
Qed.

Lemma NoDup_id_range (from to : Z) : NoDup (id_range from to).
Proof.
  unfold id_range. apply NoDup_map_NoDup_ForallPairs.
  - intros x y _ _ Hxy. lia.
  - apply seq_NoDup.
Qed.

Lemma length_id_range (from to : Z) :
  from <= to -> len (id_range from to) = to - from.
Proof.
  intros Hft. unfold len, id_range.
  rewrite length_map, length_seq. lia.
Qed.

(** Membership in an aligned block is a quotient. *)
Lemma block_mem (P s x : Z) :
  0 < P -> (P * s <= x < P * s + P <-> x / P = s).
Proof.
  intros HP. split.
  - intros Hx. symmetry. apply (Z.div_unique x P s (x - P * s)); lia.
  - intros <-. pose proof (Z.div_mod x P ltac:(lia)).
    pose proof (Z.mod_pos_bound x P HP). lia.
Qed.

(** *** The range of a level *)

Lemma FullRange_Ok_level (c : candidateTree) (k : Z) (ids : list Identity) :
  FullRange c k = Ok ids -> 1 <= k <= ct_bitsize c.
Proof.
  unfold FullRange.
  destruct (k <? 1) eqn:E1; [discriminate|].
  destruct (k >? ct_bitsize c) eqn:E2; [discriminate|].
  intros _. rewrite Z.gtb_ltb in E2.
  apply Z.ltb_ge in E1. apply Z.ltb_ge in E2. lia.
Qed.

(** On a dense registry of [2^B] identities, level [k] is the sibling
    block of the anchor at depth [k]. *)
Lemma FullRange_block (reg : Registry) (B a k : Z) :
  dense reg -> Size reg = 2 ^ B -> 0 <= a < Size reg -> 1 <= k <= B ->
  exists ids,
    FullRange (newCandidateTree a reg) k = Ok ids
    /\ ids_of ids
       = id_range (2 ^ (k - 1) * sib (a / 2 ^ (k - 1)))
                  (2 ^ (k - 1) * sib (a / 2 ^ (k - 1)) + 2 ^ (k - 1))
    /\ 0 <= 2 ^ (k - 1) * sib (a / 2 ^ (k - 1))
    /\ 2 ^ (k - 1) * sib (a / 2 ^ (k - 1)) + 2 ^ (k - 1) <= Size reg.
Proof.
  intros Hd HN Ha Hk.
  unfold FullRange, newCandidateTree. cbn [ct_bitsize ct_size ct_reg].
  unfold log2. rewrite HN, Z.log2_up_pow2 by lia.
  replace (k <? 1) with false by (symmetry; zbool).
  replace (k >? B) with false by (symmetry; zbool).
  cbv [orb].
  set (c := {| ct_id := a; ct_bitsize := B; ct_size := 2 ^ B;
               ct_reg := reg |}).
  assert (Hw : walk c (k - 1) (Z.to_nat B) 0 (2 ^ B)
               = (2 ^ (k - 1) * sib (a / 2 ^ (k - 1)),
                  2 ^ (k - 1) * sib (a / 2 ^ (k - 1)) + 2 ^ (k - 1))).
  { apply (walk_level c k (Z.to_nat B)); cbn [ct_id ct_size c];
      rewrite ?Z2Nat.id by lia; try lia.
    rewrite Z.div_small by lia. reflexivity. }
  pose proof (walk_bounds c (k - 1) (Z.to_nat B) 0 (2 ^ B)) as Hb.
  cbn [ct_size c] in Hb. rewrite Hw in Hb. cbn [fst snd] in Hb.
  assert (0 < 2 ^ B) by (apply pow2_pos; lia).
  specialize (Hb ltac:(lia) ltac:(lia)).
  rewrite Hw.
  destruct (Identities_dense reg _ _ Hd (proj1 Hb) ltac:(lia))
    as [ids [Hids Hmap]].
  exists ids. rewrite Hids. repeat split; try assumption; lia.
Qed.

(** The ids of level [k] are those whose quotient by [2^(k-1)] is the
    sibling of the anchor's. *)
Lemma FullRange_mem (reg : Registry) (B a k : Z) (ids : list Identity) :
  dense reg -> Size reg = 2 ^ B -> 0 <= a < Size reg ->
  FullRange (newCandidateTree a reg) k = Ok ids ->
  forall x, In x (ids_of ids) <-> x / 2 ^ (k - 1) = sib (a / 2 ^ (k - 1)).
Proof.
  intros Hd HN Ha HF x.
  assert (HB : 0 <= B).
  { destruct (Z.le_gt_cases 0 B); [assumption|].
    rewrite Z.pow_neg_r in HN by lia. lia. }
  pose proof (FullRange_Ok_level _ _ _ HF) as Hk.
  cbn [newCandidateTree ct_bitsize] in Hk. unfold log2 in Hk.
  rewrite HN, Z.log2_up_pow2 in Hk by lia.
  destruct (FullRange_block reg B a k Hd HN Ha Hk)
    as [ids' [HF' [Hmap [Hlo Hhi]]]].
  rewrite HF in HF'. injection HF' as <-.
  rewrite Hmap, in_id_range by assumption.
  apply block_mem, pow2_pos. lia.
Qed.

(** *** The levels partition the other identities *)

Lemma div_pow2_add (x m d : Z) :
  0 <= m -> 0 <= d -> x / 2 ^ (m + d) = x / 2 ^ m / 2 ^ d.
Proof.
  intros Hm Hd. rewrite Z.pow_add_r by assumption.
  pose proof (pow2_pos m Hm). pose proof (pow2_pos d Hd).
  rewrite Z.div_div by lia. reflexivity.
Qed.

(** Two ids that agree above bit [m] agree above every higher bit. *)
Lemma agree_up (x a m d : Z) :
  0 <= m -> 0 <= d ->
  x / 2 ^ m = a / 2 ^ m -> x / 2 ^ (m + d) = a / 2 ^ (m + d).
Proof.
  intros Hm Hd E. rewrite !div_pow2_add by assumption. rewrite E.
  reflexivity.
Qed.

(** An id of level [j] agrees with the anchor above bit [j]. *)
Lemma sibling_agrees (x a j : Z) :
  1 <= j ->
  x / 2 ^ (j - 1) = sib (a / 2 ^ (j - 1)) -> x / 2 ^ j = a / 2 ^ j.
Proof.
  intros Hj E.
  pose proof (div_pow2_add x (j - 1) 1 ltac:(lia) ltac:(lia)) as Hx.
  pose proof (div_pow2_add a (j - 1) 1 ltac:(lia) ltac:(lia)) as Hy.
  replace (j - 1 + 1) with j in Hx, Hy by lia.
  rewrite Hx, Hy, E. change (2 ^ 1) with 2. apply sib_half.
Qed.

Lemma levels_disjoint (x a j k : Z) :
  1 <= j < k ->
  x / 2 ^ (j - 1) = sib (a / 2 ^ (j - 1)) ->
  x / 2 ^ (k - 1) <> sib (a / 2 ^ (k - 1)).
Proof.
  intros Hjk Ej Ek.
  apply sibling_agrees in Ej; [|lia].
  apply (agree_up x a j (k - 1 - j)) in Ej; try lia.
  replace (j + (k - 1 - j)) with (k - 1) in Ej by lia.
  rewrite Ej in Ek. symmetry in Ek. exact (sib_neq _ Ek).
Qed.

(** Two different ids that agree above bit [n] sit in sibling blocks at
    some level up to [n]. *)
Lemma first_agree (x a : Z) (n : nat) :
  x / 2 ^ Z.of_nat n = a / 2 ^ Z.of_nat n -> x <> a ->
  exists k, 1 <= k <= Z.of_nat n
            /\ x / 2 ^ (k - 1) = sib (a / 2 ^ (k - 1)).
Proof.
  induction n as [|i IH]; intros E Hne.
  - simpl in E. rewrite !Z.div_1_r in E. contradiction.
  - destruct (Z.eq_dec (x / 2 ^ Z.of_nat i) (a / 2 ^ Z.of_nat i)) as [E'|N'].
    + destruct (IH E' Hne) as [k [Hk Hs]]. exists k. split; [lia|assumption].
    + exists (Z.of_nat (S i)). split; [lia|].
      replace (Z.of_nat (S i) - 1) with (Z.of_nat i) by lia.
      rewrite !div_pow2_succ_nat in E.
      apply sib_of_half; assumption.
Qed.

(** C4: with 16 identities and anchor 1, levels 1 to 4 are the identities
    of ids [0,1), [2,4), [4,8) and [8,16), as returned by [Identities];
    levels 0 and 5 are rejected with an error. *)
Theorem FullRange_16_anchor_1 :
  let reg := FakeRegistry 16 in
  let ct := newCandidateTree 1 reg in
  (exists ids, Identities reg 0 1 = Some ids /\ FullRange ct 1 = Ok ids
               /\ ids_of ids = [0])
  /\ (exists ids, Identities reg 2 4 = Some ids /\ FullRange ct 2 = Ok ids
                  /\ ids_of ids = [2; 3])
  /\ (exists ids, Identities reg 4 8 = Some ids /\ FullRange ct 3 = Ok ids
                  /\ ids_of ids = [4; 5; 6; 7])
  /\ (exists ids, Identities reg 8 16 = Some ids /\ FullRange ct 4 = Ok ids
                  /\ ids_of ids = [8; 9; 10; 11; 12; 13; 14; 15])
  /\ (exists msg, FullRange ct 0 = Error msg)
  /\ (exists msg, FullRange ct 5 = Error msg).
Proof.
  cbv zeta.
  repeat split; eexists; repeat split; vm_compute; reflexivity.
Qed.

(** C5: on a registry of [N = 2^B] identities, [B >= 1], whose
    [Identities(from, to)] returns exactly the ids of [[from, to)], and for
    an anchor [a] in [[0, N)]: every level [k = 1..B] yields [2^(k-1)]
    distinct identities, two different levels share no id, and an id
    belongs to some level exactly when it lies in [[0, N)] and is not [a]. *)
Theorem FullRange_partition (reg : Registry) (B a : Z) :
  1 <= B -> Size reg = 2 ^ B -> dense reg -> 0 <= a < Size reg ->
  let c := newCandidateTree a reg in
  (forall k, 1 <= k <= B ->
     exists ids, FullRange c k = Ok ids
                 /\ len ids = 2 ^ (k - 1)
                 /\ NoDup (ids_of ids))
  /\ (forall j k idsj idsk x,
        j <> k -> FullRange c j = Ok idsj -> FullRange c k = Ok idsk ->
        In x (ids_of idsj) -> ~ In x (ids_of idsk))
  /\ (forall x,
        (exists k ids, 1 <= k <= B /\ FullRange c k = Ok ids
                       /\ In x (ids_of ids))
        <-> (0 <= x < Size reg /\ x <> a)).
Proof.
  intros HB HN Hd Ha c. subst c. split; [|split].
  - intros k Hk.
    destruct (FullRange_block reg B a k Hd HN Ha Hk)
      as [ids [HF [Hmap [Hlo Hhi]]]].
    exists ids. split; [assumption|]. split.
    + assert (E : len (ids_of ids) = len ids)
        by (unfold len, ids_of; rewrite length_map; reflexivity).
      rewrite <- E, Hmap, length_id_range; lia.
    + rewrite Hmap. apply NoDup_id_range.
  - intros j k idsj idsk x Hjk Fj Fk Hj Hk.
    pose proof (FullRange_Ok_level _ _ _ Fj) as Lj.
    pose proof (FullRange_Ok_level _ _ _ Fk) as Lk.
    rewrite (FullRange_mem reg B a j idsj Hd HN Ha Fj) in Hj.
    rewrite (FullRange_mem reg B a k idsk Hd HN Ha Fk) in Hk.
    destruct (Z.lt_total j k) as [Hlt|[Heq|Hgt]]; [|contradiction|].
    + exact (levels_disjoint x a j k ltac:(lia) Hj Hk).
    + exact (levels_disjoint x a k j ltac:(lia) Hk Hj).
  - intros x. split.
    + intros [k [ids [Hk [HF Hin]]]].
      destruct (FullRange_block reg B a k Hd HN Ha Hk)
        as [ids' [HF' [Hmap [Hlo Hhi]]]].
      rewrite HF in HF'. injection HF' as <-.
      pose proof Hin as Hin'.
      rewrite Hmap, in_id_range in Hin by assumption.
      rewrite (FullRange_mem reg B a k ids Hd HN Ha HF) in Hin'.
      split; [lia|].
      intros ->. exact (sib_neq _ (eq_sym Hin')).
    + intros [Hx Hne].
      destruct (first_agree x a (Z.to_nat B)) as [k [Hk Hs]].
      * rewrite Z2Nat.id by lia. rewrite !Z.div_small by lia. reflexivity.
      * assumption.
      * rewrite Z2Nat.id in Hk by lia.
        destruct (FullRange_block reg B a k Hd HN Ha Hk)
          as [ids [HF _]].
        exists k, ids. split; [assumption|]. split; [assumption|].
        rewrite (FullRange_mem reg B a k ids Hd HN Ha HF). assumption.
Qed.

Lemma FullRange_partition_witness :
  let c := newCandidateTree 2 (FakeRegistry 8) in
  (forall k, 1 <= k <= 3 ->
     exists ids, FullRange c k = Ok ids
                 /\ len ids = 2 ^ (k - 1)
                 /\ NoDup (ids_of ids))
  /\ (forall j k idsj idsk x,
        j <> k -> FullRange c j = Ok idsj -> FullRange c k = Ok idsk ->
        In x (ids_of idsj) -> ~ In x (ids_of idsk))
  /\ (forall x,
        (exists k ids, 1 <= k <= 3 /\ FullRange c k = Ok ids
                       /\ In x (ids_of ids))
        <-> (0 <= x < Size (FakeRegistry 8) /\ x <> 2)).
Proof.
  apply (FullRange_partition (FakeRegistry 8) 3 2).
  - lia.
  - reflexivity.
  - reflexivity.
  - vm_compute. split; [discriminate | reflexivity].
Defined.

(** ** Levels *)

Lemma wrap_int_small (x : Z) : min_int <= x <= max_int -> wrap_int x = x.
Proof.
  unfold min_int, max_int, wrap_int. intros Hx.
  rewrite Z.mod_small; lia.
Qed.

Lemma index_Return {A : Type} (l : list A) (i : Z) :
  0 <= i < len l ->
  exists x, index l i = Return x /\ nth_error l (Z.to_nat i) = Some x.
Proof.
  unfold len, index. intros Hi.
  replace (i <? 0) with false by (symmetry; zbool).
  replace (i >=? Z.of_nat (length l)) with false by (symmetry; zbool).
  cbv [orb].
  destruct (nth_error l (Z.to_nat i)) as [x|] eqn:E.
  - exists x. split; reflexivity.
  - apply nth_error_None in E. lia.
Qed.

(** The cursor after one step: incremented, and reset at the end. *)
Lemma cursor_step (L pos : Z) :
  0 <= pos < L -> L <= max_int ->
  (if int_add pos 1 >=? L then 0 else int_add pos 1) = (pos + 1) mod L.
Proof.
  intros Hp HL. unfold int_add.
  rewrite wrap_int_small by (unfold min_int, max_int in *; lia).
  destruct (Z.eq_dec (pos + 1) L) as [E|N].
  - replace (pos + 1 >=? L) with true by (symmetry; zbool).
    rewrite E, Z.mod_same by lia. reflexivity.
  - replace (pos + 1 >=? L) with false by (symmetry; zbool).
    rewrite Z.mod_small by lia. reflexivity.
Qed.

(** The loop of [PickNextAt] reads [n] candidates in a row from the
    cursor, wrapping around. *)
Lemma pick_spec (nds : list Identity) (n : nat) :
  forall pos,
    0 <= pos < len nds -> len nds <= max_int ->
    exists res,
      pick nds n pos = Return (res, (pos + Z.of_nat n) mod len nds)
      /\ length res = n
      /\ forall i, (i < n)%nat ->
           nth_error res i
           = nth_error nds (Z.to_nat ((pos + Z.of_nat i) mod len nds)).
Proof.
  induction n as [|n IH]; intros pos Hp HL.
  - exists []. simpl. rewrite Z.add_0_r, Z.mod_small by lia.
    repeat split; intros; lia.
  - simpl pick.
    destruct (index_Return nds pos Hp) as [x [Hx Hnth]].
    rewrite Hx. cbn [bind].
    rewrite cursor_step by assumption.
    assert (Hp' : 0 <= (pos + 1) mod len nds < len nds)
      by (apply Z.mod_pos_bound; lia).
    destruct (IH _ Hp' HL) as [rest [Hrest [Hlen Hel]]].
    rewrite Hrest. cbn [bind].
    exists (x :: rest).
    rewrite Zplus_mod_idemp_l in *.
    replace (pos + 1 + Z.of_nat n) with (pos + Z.of_nat (S n)) by lia.
    split; [reflexivity|]. split; [simpl; lia|].
    intros [|i] Hi.
    + simpl. rewrite Z.add_0_r, Z.mod_small by lia. symmetry. assumption.
    + simpl nth_error. rewrite Hel by lia.
      rewrite Zplus_mod_idemp_l.
      replace (pos + 1 + Z.of_nat i) with (pos + Z.of_nat (S i)) by lia.
      reflexivity.
Qed.

(** C6: [updateSigToSend(ms)] returns false and leaves the level as it is
    when the cardinality of [ms] is at most [sendSigSize]; otherwise it
    sets [sendSigSize] to the cardinality and [sendPeersCt] to 0, and it
    returns true and sets [sendStarted] exactly when the new cardinality is
    the number of candidates, returning false otherwise. *)
Theorem updateSigToSend_spec (l : Level) (m : MultiSignature) :
  (Cardinality m <= sendSigSize l -> updateSigToSend l m = (false, l))
  /\ (sendSigSize l < Cardinality m ->
      sendSigSize (snd (updateSigToSend l m)) = Cardinality m
      /\ sendPeersCt (snd (updateSigToSend l m)) = 0
      /\ level_id (snd (updateSigToSend l m)) = level_id l
      /\ nodes (snd (updateSigToSend l m)) = nodes l
      /\ rcvCompleted (snd (updateSigToSend l m)) = rcvCompleted l
      /\ sendPos (snd (updateSigToSend l m)) = sendPos l
      /\ (Cardinality m = len (nodes l) ->
          fst (updateSigToSend l m) = true
          /\ sendStarted (snd (updateSigToSend l m)) = true)
      /\ (Cardinality m <> len (nodes l) ->
          fst (updateSigToSend l m) = false
          /\ sendStarted (snd (updateSigToSend l m)) = sendStarted l)).
Proof.
  unfold updateSigToSend. split.
  - intros Hle.
    replace (sendSigSize l >=? Cardinality m) with true
      by (symmetry; zbool).
    reflexivity.
  - intros Hlt.
    replace (sendSigSize l >=? Cardinality m) with false
      by (symmetry; zbool).
    cbn [sendSigSize nodes].
    destruct (Cardinality m =? len (nodes l)) eqn:E;
      [apply Z.eqb_eq in E | apply Z.eqb_neq in E];
      cbn; repeat split; try reflexivity; intros; congruence.
Qed.

Lemma updateSigToSend_spec_witness :
  (fst (updateSigToSend sample_level (sample_ms [true; false; true; true]))
   = true
   /\ sendStarted
        (snd (updateSigToSend sample_level
                (sample_ms [true; false; true; true]))) = true)
  /\ updateSigToSend sample_level (sample_ms [true; false])
     = (false, sample_level).
Proof.
  split.
  - apply (updateSigToSend_spec sample_level
             (sample_ms [true; false; true; true])).
    + vm_compute. reflexivity.
    + vm_compute. reflexivity.
  - apply (updateSigToSend_spec sample_level (sample_ms [true; false])).
    vm_compute. discriminate.
Defined.

(** The run of [PickNextAt] on a level whose cursor points into its
    candidates. *)
Lemma PickNextAt_run (l : Level) (count : Z) :
  0 <= count -> cursor_ok l ->
  exists res,
    PickNextAt l count
    = Return (res, true,
              {| level_id := level_id l;
                 nodes := nodes l;
                 sendStarted := sendStarted l;
                 rcvCompleted := rcvCompleted l;
                 sendPos := (sendPos l + len res) mod len (nodes l);
                 sendPeersCt := int_add (sendPeersCt l) (len res);
                 sendSigSize := sendSigSize l |})
    /\ len res = Z.min count (len (nodes l))
    /\ forall i, (i < length res)%nat ->
         nth_error res i
         = nth_error (nodes l)
             (Z.to_nat ((sendPos l + Z.of_nat i) mod len (nodes l))).
Proof.
  intros Hc [Hpos HL]. unfold PickNextAt.
  set (size := Z.min count (len (nodes l))).
  assert (Hsize : 0 <= size) by (unfold size; lia).
  replace (size <? 0) with false by (symmetry; zbool).
  destruct (pick_spec (nodes l) (Z.to_nat size) (sendPos l) Hpos HL)
    as [res [Hpick [Hlen Hel]]].
  rewrite Hpick. cbn [bind].
  assert (Hres : len res = size) by (unfold len; lia).
  exists res. rewrite Hres, Z2Nat.id by assumption.
  repeat split; try reflexivity.
  intros i Hi. apply Hel. lia.
Qed.

(** C7: on a level with a non-empty candidate list whose cursor points
    into it, and for [count >= 0], [PickNextAt(count)] returns exactly
    [min(count, |nodes|)] identities, the candidates read one after the
    other from index [sendPos] modulo [|nodes|]; it adds the length of the
    returned list to [sendPeersCt] and moves [sendPos] forward by that
    length modulo [|nodes|]. *)
Theorem PickNextAt_spec (l : Level) (count : Z) :
  nodes l <> [] -> 0 <= count -> cursor_ok l ->
  exists res l',
    PickNextAt l count = Return (res, true, l')
    /\ len res = Z.min count (len (nodes l))
    /\ (forall i, (i < length res)%nat ->
          nth_error res i
          = nth_error (nodes l)
              (Z.to_nat ((sendPos l + Z.of_nat i) mod len (nodes l))))
    /\ sendPeersCt l' = int_add (sendPeersCt l) (len res)
    /\ (min_int <= sendPeersCt l + len res <= max_int ->
        sendPeersCt l' = sendPeersCt l + len res)
    /\ sendPos l' = (sendPos l + len res) mod len (nodes l)
    /\ level_id l' = level_id l
    /\ nodes l' = nodes l
    /\ sendStarted l' = sendStarted l
    /\ rcvCompleted l' = rcvCompleted l
    /\ sendSigSize l' = sendSigSize l.
Proof.
  intros _ Hc Hok.
  destruct (PickNextAt_run l count Hc Hok) as [res [Hrun [Hlen Hel]]].
  eexists res, _. split; [exact Hrun|].
  cbn [sendPeersCt sendPos level_id nodes sendStarted rcvCompleted
       sendSigSize].
  repeat split; try assumption.
  intros Hr. unfold int_add. apply wrap_int_small. assumption.
Qed.

Lemma PickNextAt_spec_witness :
  exists res l',
    PickNextAt sample_level 5 = Return (res, true, l')
    /\ len res = Z.min 5 (len (nodes sample_level))
    /\ (forall i, (i < length res)%nat ->
          nth_error res i
          = nth_error (nodes sample_level)
              (Z.to_nat ((sendPos sample_level + Z.of_nat i)
                         mod len (nodes sample_level))))
    /\ sendPeersCt l' = int_add (sendPeersCt sample_level) (len res)
    /\ (min_int <= sendPeersCt sample_level + len res <= max_int ->
        sendPeersCt l' = sendPeersCt sample_level + len res)
    /\ sendPos l' = (sendPos sample_level + len res)
                    mod len (nodes sample_level)
    /\ level_id l' = level_id sample_level
    /\ nodes l' = nodes sample_level
    /\ sendStarted l' = sendStarted sample_level
    /\ rcvCompleted l' = rcvCompleted sample_level
    /\ sendSigSize l' = sendSigSize sample_level.
Proof.
  apply (PickNextAt_spec sample_level 5).
  - discriminate.
  - lia.
  - vm_compute. repeat split; discriminate || reflexivity.
Defined.

Example PickNextAt_sample :
  PickNextAt sample_level 2
  = Return (map (fun i => mkIdentity i "" "") [6; 4], true,
            {| level_id := 2;
               nodes := nodes sample_level;
               sendStarted := true;
               rcvCompleted := false;
               sendPos := 1;
               sendPeersCt := 2;
               sendSigSize := 1 |}).
Proof. vm_compute. reflexivity. Qed.

(** The cursor invariant holds at construction and is kept by the methods
    of a level. *)
Lemma NewLevel_cursor_ok (id : Z) (nds : list Identity) (l : Level) :
  nds <> [] -> len nds <= max_int ->
  NewLevel id nds = Return l -> cursor_ok l.
Proof.
  intros Hne HL. unfold NewLevel.
  destruct (id <=? 0); [discriminate|].
  intros E. injection E as <-. unfold cursor_ok. cbn.
  split; [|assumption].
  destruct nds; [contradiction|]. unfold len. simpl. lia.
Qed.

Lemma PickNextAt_cursor_ok (l l' : Level) (count : Z)
  (res : list Identity) (ok : bool) :
  0 <= count -> cursor_ok l ->
  PickNextAt l count = Return (res, ok, l') -> cursor_ok l'.
Proof.
  intros Hc Hok E.
  destruct (PickNextAt_run l count Hc Hok) as [res' [E1 _]].
  rewrite E in E1. injection E1 as _ _ El. subst l'.
  destruct Hok as [Hp HL]. unfold cursor_ok. cbn [sendPos nodes].
  split; [|assumption]. apply Z.mod_pos_bound. lia.
Qed.

Lemma updateSigToSend_cursor_ok (l : Level) (m : MultiSignature) :
  cursor_ok l -> cursor_ok (snd (updateSigToSend l m)).
Proof.
  unfold cursor_ok, updateSigToSend.
  destruct (sendSigSize l >=? Cardinality m); [trivial|].
  cbn [sendSigSize nodes].
  destruct (Cardinality m =? len (nodes l)); trivial.
Qed.

(** ** The aggregator *)

Example sample_handel_built : sample_handel = Return sample_h.
Proof. vm_compute. reflexivity. Qed.

Section AggregatorProperties.

Context `{Collaborators}.

Lemma only_sent_refl (h : Handel) : only_sent h h.
Proof. exists (stats h), (net h). destruct h. reflexivity. Qed.

Lemma only_sent_trans (h1 h2 h3 : Handel) :
  only_sent h1 h2 -> only_sent h2 h3 -> only_sent h1 h3.
Proof.
  intros [st1 [n1 ->]] [st2 [n2 ->]].
  exists st2, n2. destruct h1. reflexivity.
Qed.

Lemma only_sent_fields (h h' : Handel) :
  only_sent h h' ->
  levels h' = levels h /\ out h' = out h /\ threshold h' = threshold h
  /\ done h' = done h /\ best h' = best h /\ store h' = store h
  /\ proc h' = proc h /\ h_c h' = h_c h /\ reg h' = reg h
  /\ startTime h' = startTime h /\ ticker_stopped h' = ticker_stopped h.
Proof.
  intros [st [n ->]]. destruct h. simpl. repeat split.
Qed.

(** A relation that every round of a loop respects is respected by the
    loop. *)
Lemma foreach_rel {S X : Type} (R : S -> S -> Prop)
  (body : S -> X -> outcome S) :
  (forall s, R s s) ->
  (forall s1 s2 s3, R s1 s2 -> R s2 s3 -> R s1 s3) ->
  (forall s x s', body s x = Return s' -> R s s') ->
  forall xs s s', foreach xs body s = Return s' -> R s s'.
Proof.
  intros Hrefl Htrans Hbody xs.
  induction xs as [|x xs IH]; intros s s' E; simpl in E.
  - injection E as <-. apply Hrefl.
  - destruct (body s x) as [s1| |] eqn:E1; simpl in E; try discriminate.
    apply (Htrans s s1 s'); [apply (Hbody _ _ _ E1) | apply IH, E].
Qed.

Lemma sendTo_only_sent (h : Handel) (lvl : Z) (m : MultiSignature)
  (ids : list Identity) : only_sent h (sendTo h lvl m ids).
Proof.
  unfold sendTo.
  destruct (MarshalBinary m) as [buff|].
  - exists (mkHStats (int_add (msgSentCt (stats h)) 1) (msgRcvCt (stats h))),
           (net h ++ [(ids, {| Origin := ID (h_id h);
                               PacketLevel := byte_of lvl;
                               MultiSig := buff |})])%list.
    destruct h. reflexivity.
  - exists (mkHStats (int_add (msgSentCt (stats h)) 1) (msgRcvCt (stats h))),
           (net h).
    destruct h. reflexivity.
Qed.

Lemma sendUpdate_only_sent (h h' : Handel) (l : Level) (count : Z) :
  sendUpdate h l count = Return h' -> only_sent h h'.
Proof.
  unfold sendUpdate.
  destruct (negb (sendStarted l) || (sendPeersCt l >=? len (nodes l))).
  - intros E. injection E as <-. apply only_sent_refl.
  - destruct (PickNextAt l count) as [[[res ok] l']| |]; simpl;
      try discriminate.
    intros E. injection E as <-. apply sendTo_only_sent.
Qed.

Lemma periodicUpdate_only_sent (h h' : Handel) (t : Z) :
  periodicUpdate h t = Return h' -> only_sent h h'.
Proof.
  unfold periodicUpdate.
  apply foreach_rel.
  - apply only_sent_refl.
  - apply only_sent_trans.
  - intros s x s' E. exact (sendUpdate_only_sent _ _ _ _ E).
Qed.

Lemma checkCompletedLevel_only_sent (h h' : Handel) (s : sigPair) :
  checkCompletedLevel h s = Return h' -> only_sent h h'.
Proof.
  unfold checkCompletedLevel.
  destruct (index (levels h) (byte_sub (level s) 1)) as [lvl| |]; simpl;
    try discriminate.
  apply foreach_rel.
  - apply only_sent_refl.
  - apply only_sent_trans.
  - intros h1 i h2.
    destruct (index (levels h1) (i - 1)) as [l| |]; simpl; try discriminate.
    destruct (updateSigToSend l _) as [[|] l'].
    + apply sendUpdate_only_sent.
    + intros E. injection E as <-. apply only_sent_refl.
Qed.

(** A loop whose rounds all return does return. *)
Lemma foreach_returns {S X : Type} (body : S -> X -> outcome S)
  (xs : list X) :
  (forall s x, In x xs -> exists s', body s x = Return s') ->
  forall s, exists s', foreach xs body s = Return s'.
Proof.
  induction xs as [|x xs IH]; intros Hbody s; simpl.
  - exists s. reflexivity.
  - destruct (Hbody s x (or_introl eq_refl)) as [s1 E1]. rewrite E1.
    simpl. apply IH. intros s2 y Hy. apply Hbody. right. exact Hy.
Qed.

(** [sendUpdate] returns on every level whose cursor is in range or that
    has no candidate left to contact. *)
Lemma sendUpdate_returns (h : Handel) (l : Level) (count : Z) :
  0 <= count ->
  cursor_ok l \/ sendPeersCt l >= len (nodes l) ->
  exists h', sendUpdate h l count = Return h'.
Proof.
  intros Hc Hl. unfold sendUpdate.
  destruct (negb (sendStarted l) || (sendPeersCt l >=? len (nodes l)))
    eqn:Eg; [eexists; reflexivity|].
  apply orb_false_iff in Eg. destruct Eg as [_ Eg].
  rewrite Z.geb_leb in Eg. apply Z.leb_gt in Eg.
  destruct Hl as [Hok|Hge]; [|lia].
  destruct (PickNextAt_run l count Hc Hok) as [res [E _]].
  rewrite E. simpl. eexists. reflexivity.
Qed.

(** A tick returns on an aggregator whose levels have their cursor in
    range. *)
Lemma periodicUpdate_returns (h : Handel) (t : Z) :
  Forall (fun l => cursor_ok l \/ sendPeersCt l >= len (nodes l))
         (levels h) ->
  exists h', periodicUpdate h t = Return h'.
Proof.
  intros Hall. unfold periodicUpdate. apply foreach_returns.
  intros s l Hin. rewrite Forall_forall in Hall. specialize (Hall l Hin).
  apply sendUpdate_returns; [lia|].
  destruct (negb (sendStarted l) && _); exact Hall.
Qed.

Lemma do_call_only_sent (h h' : Handel) (c : call) :
  do_call h c = Return h' -> only_sent h h'.
Proof.
  destruct c; simpl.
  - apply periodicUpdate_only_sent.
  - apply sendUpdate_only_sent.
  - apply checkCompletedLevel_only_sent.
Qed.

(** *** The levels array is never written *)

(** C2: the loops of [periodicUpdate] and [checkCompletedLevel] and the
    parameter of [sendUpdate] hold copies of the levels, so no sequence of
    calls to these three functions changes any field of any entry of the
    levels array; on an aggregator built by [NewHandel] every entry keeps
    the values that [createLevels] gave it. *)
Theorem levels_never_change :
  (forall cs h h', do_calls cs h = Return h' -> levels h' = levels h)
  /\ (forall r id msg s config newStore h0 cs h',
        NewHandel r id msg s config newStore = Return h0 ->
        do_calls cs h0 = Return h' ->
        createLevels r (NewPartitioner config (ID id) r)
        = Return (levels h')).
Proof.
  assert (Hframe : forall cs h h',
             do_calls cs h = Return h' -> only_sent h h').
  { intros cs. unfold do_calls. apply foreach_rel.
    - apply only_sent_refl.
    - apply only_sent_trans.
    - intros h c h'. apply do_call_only_sent. }
  split.
  - intros cs h h' E. apply (only_sent_fields h h'), (Hframe cs), E.
  - intros r id msg s config newStore h0 cs h' E0 E.
    apply Hframe, only_sent_fields in E. destruct E as [-> _].
    unfold NewHandel in E0.
    destruct (createLevels r (NewPartitioner config (ID id) r))
      as [lvls| |]; simpl in E0; try discriminate.
    injection E0 as <-. reflexivity.
Qed.

(** In particular a tick leaves every [sendStarted] flag of the array as
    it was: the flag is set on the copy only. *)
Lemma periodicUpdate_sendStarted (h h' : Handel) (t : Z) :
  periodicUpdate h t = Return h' ->
  map sendStarted (levels h') = map sendStarted (levels h).
Proof.
  intros E. apply periodicUpdate_only_sent, only_sent_fields in E.
  destruct E as [-> _]. reflexivity.
Qed.

(** *** Stop *)

(** C3, as the code has it: [Stop] on an aggregator whose output stream is
    open stops the ticker and the pipeline, sets [done] and closes the
    stream, keeping what the stream holds; a second [Stop] panics when it
    closes the closed stream. *)
Theorem Stop_closes_once (h : Handel) :
  chan_closed (out h) = false ->
  exists h1,
    Stop h = Return h1
    /\ done h1 = true
    /\ chan_closed (out h1) = true
    /\ chan_buf (out h1) = chan_buf (out h)
    /\ ticker_stopped h1 = true
    /\ proc_stopped (proc h1) = true
    /\ levels h1 = levels h
    /\ Stop h1 = Panic "close of closed channel".
Proof.
  intros Hopen. unfold Stop at 1. cbn [set_done set_proc out].
  unfold chan_close at 1. cbn [set_ticker_stopped out].
  rewrite Hopen. cbn [bind].
  eexists. split; [reflexivity|].
  repeat split.
Qed.

(** *** NewPacket *)

(** C10: once [done] is set, [NewPacket] returns the aggregator as it is,
    whatever the packet: the counter [msgRcvCt] stays and nothing is
    enqueued on the pipeline. *)
Theorem NewPacket_done (h : Handel) (p : Packet) :
  done h = true -> NewPacket h p = Return h.
Proof. intros Hd. unfold NewPacket. rewrite Hd. reflexivity. Qed.

(** C9: on an aggregator that is not done, a packet whose origin is at
    least the registry size, whose level is outside [1 .. log2 N], or
    whose multi-signature does not unmarshal is dropped: [NewPacket]
    returns the aggregator with [msgRcvCt] incremented by one and nothing
    else changed; the pipeline holds what it held. *)
Theorem NewPacket_malformed (h : Handel) (p : Packet) :
  done h = false ->
  Packet_wf p ->
  Size (reg h) <= Origin p
  \/ ~ (1 <= PacketLevel p <= log2 (Size (reg h)))
  \/ Unmarshal (MultiSig p) = None ->
  exists h',
    NewPacket h p = Return h'
    /\ h' = set_stats h (mkHStats (msgSentCt (stats h))
                                  (int_add (msgRcvCt (stats h)) 1))
    /\ (min_int <= msgRcvCt (stats h) < max_int ->
        msgRcvCt (stats h') = msgRcvCt (stats h) + 1)
    /\ msgSentCt (stats h') = msgSentCt (stats h)
    /\ proc h' = proc h
    /\ Incoming (proc h') = Incoming (proc h).
Proof.
  intros Hd [Ho Hl] Hbad.
  exists (set_stats h (mkHStats (msgSentCt (stats h))
                                (int_add (msgRcvCt (stats h)) 1))).
  split.
  - unfold NewPacket. rewrite Hd. unfold parsePacket.
    replace (reg (set_stats h _)) with (reg h) by (destruct h; reflexivity).
    destruct (Origin p >=? int32_of (Size (reg h))) eqn:E1; [reflexivity|].
    destruct ((PacketLevel p <? 1)
              || (PacketLevel p >? log2 (Size (reg h)))) eqn:E2;
      [reflexivity|].
    destruct (Unmarshal (MultiSig p)) eqn:E3; [|reflexivity].
    exfalso. destruct Hbad as [Hb|[Hb|Hb]].
    + rewrite Z.geb_leb in E1. apply Z.leb_gt in E1.
      unfold int32_of in E1.
      assert (0 <= Size (reg h)) by (unfold Size; lia).
      rewrite Z.mod_small in E1 by lia. lia.
    + apply Hb. apply orb_false_iff in E2. destruct E2 as [E2 E2'].
      rewrite Z.gtb_ltb in E2'.
      apply Z.ltb_ge in E2. apply Z.ltb_ge in E2'. lia.
    + discriminate.
  - split; [reflexivity|].
    destruct h. cbn. repeat split.
    intros Hr. unfold int_add. apply wrap_int_small.
    unfold min_int, max_int in *. simpl in Hr. lia.
Qed.

(** *** The output stream *)

Lemma NewPacket_out (h h' : Handel) (p : Packet) :
  NewPacket h p = Return h' ->
  out h' = out h /\ threshold h' = threshold h /\ levels h' = levels h.
Proof.
  unfold NewPacket. destruct (done h).
  - intros E. injection E as <-. repeat split; reflexivity.
  - destruct (parsePacket h p) as [h1 r] eqn:Ep.
    assert (H1 : out h1 = out h /\ threshold h1 = threshold h
                 /\ levels h1 = levels h).
    { unfold parsePacket in Ep.
      repeat match type of Ep with
             | (if ?b then _ else _) = _ => destruct b
             | match ?o with Some _ => _ | None => _ end = _ => destruct o
             end;
        injection Ep as <- _; destruct h; repeat split; reflexivity. }
    destruct r as [m|msg].
    + destruct (index (levels h1) (byte_sub (PacketLevel p) 1)) as [l| |];
        simpl; try discriminate.
      destruct (negb (rcvCompleted l) || true); intros E;
        injection E as <-; destruct h1; exact H1.
    + intros E. injection E as <-. exact H1.
Qed.

(** What [checkFinalSignature] puts on the output stream has at least
    [threshold] contributions. *)
Lemma checkFinalSignature_emits (h h' : Handel) (v : sigPair) :
  checkFinalSignature h v = Return h' ->
  threshold h' = threshold h
  /\ (chan_buf (out h') = chan_buf (out h)
      \/ exists m, chan_buf (out h') = (chan_buf (out h) ++ [m])%list
                   /\ threshold h <= Cardinality m).
Proof.
  unfold checkFinalSignature.
  destruct (bs_Cardinality (ms_BitSet (store_FullSignature (store h)))
            <? threshold h) eqn:Et.
  - intros E. injection E as <-. split; [reflexivity | left; reflexivity].
  - apply Z.ltb_ge in Et.
    assert (Hnew : forall m, threshold h <= Cardinality m ->
              newBest h m = Return h' ->
              threshold h' = threshold h
              /\ (chan_buf (out h') = chan_buf (out h)
                  \/ exists m, chan_buf (out h')
                               = (chan_buf (out h) ++ [m])%list
                               /\ threshold h <= Cardinality m)).
    { intros m Hm. unfold newBest. destruct (done h).
      - intros E. injection E as <-.
        split; [reflexivity | left; reflexivity].
      - unfold chan_send. cbn [set_best out].
        destruct (chan_closed (out h)); simpl; try discriminate.
        destruct (Z.of_nat (length (chan_buf (out h)))
                  >=? chan_cap (out h)); simpl; try discriminate.
        intros E. injection E as <-. destruct h. cbn.
        split; [reflexivity|]. right. exists m. split; [reflexivity|].
        exact Hm. }
    destruct (best h) as [b|].
    + destruct (Cardinality (store_FullSignature (store h))
                >? Cardinality b).
      * apply Hnew. exact Et.
      * intros E. injection E as <-.
        split; [reflexivity | left; reflexivity].
    + apply Hnew. exact Et.
Qed.

Lemma exec_out_above (T : Z) (h h' : Handel) (e : event) :
  out_above T h -> exec h e = Return h' -> out_above T h'.
Proof.
  unfold out_above. intros [HT Hall].
  destruct e as [now|p|t|v| |]; simpl.
  - unfold Start. intros E.
    apply periodicUpdate_only_sent, only_sent_fields in E.
    destruct E as [_ [-> [-> _]]]. destruct h. split; assumption.
  - intros E. apply NewPacket_out in E. destruct E as [-> [-> _]].
    split; assumption.
  - intros E. apply periodicUpdate_only_sent, only_sent_fields in E.
    destruct E as [_ [-> [-> _]]]. split; assumption.
  - unfold onVerified.
    destruct (checkCompletedLevel _ v) as [h2| |] eqn:E2; simpl;
      try discriminate.
    apply checkCompletedLevel_only_sent, only_sent_fields in E2.
    destruct E2 as [_ [Ho [Ht _]]].
    assert (Ho' : out h2 = out h) by (rewrite Ho; destruct h; reflexivity).
    assert (Ht' : threshold h2 = threshold h)
      by (rewrite Ht; destruct h; reflexivity).
    intros E. apply checkFinalSignature_emits in E.
    destruct E as [Eth [Eb|[m [Eb Hm]]]]; rewrite Eth, Eb, Ho', Ht'.
    + split; assumption.
    + split; [assumption|]. apply Forall_app. split; [assumption|].
      constructor; [lia | constructor].
  - unfold Stop, chan_close. cbn [set_done set_proc set_ticker_stopped out].
    destruct (chan_closed (out h)); simpl; try discriminate.
    intros E. injection E as <-. destruct h. split; assumption.
  - destruct (chan_recv (out h)) as [[m ch]|] eqn:Er.
    + intros E. injection E as <-. unfold chan_recv in Er.
      destruct (chan_buf (out h)) as [|x rest] eqn:Eb; [discriminate|].
      injection Er as _ <-. destruct h. cbn in *.
      split; [assumption|]. inversion Hall. assumption.
    + intros E. injection E as <-. split; assumption.
Qed.

Lemma reachable_out_above (T : Z) (h0 h : Handel) :
  out_above T h0 -> reachable h0 h -> out_above T h.
Proof.
  intros H0 Hr. induction Hr as [|h e h' _ IH E]; [assumption|].
  exact (exec_out_above T h h' e IH E).
Qed.

Lemma NewHandel_out_above (r : Registry) (id : Identity) (msg : string)
  (s : Signature) (config : Config) (newStore : signatureStore)
  (h0 : Handel) :
  NewHandel r id msg s config newStore = Return h0 ->
  out_above (ContributionsThreshold config (Size r)) h0.
Proof.
  unfold NewHandel.
  destruct (createLevels r (NewPartitioner config (ID id) r)); simpl;
    try discriminate.
  intros E. injection E as <-. split; [reflexivity | constructor].
Qed.

(** The levels array of a running aggregator is the one it was built
    with. *)
Lemma reachable_levels (h0 h : Handel) :
  reachable h0 h -> levels h = levels h0.
Proof.
  intros Hr. induction Hr as [|h e h' _ IH E]; [reflexivity|].
  rewrite <- IH. clear IH.
  destruct e as [now|p|t|v| |]; simpl in E.
  - unfold Start in E.
    apply periodicUpdate_only_sent, only_sent_fields in E.
    destruct E as [-> _]. destruct h. reflexivity.
  - apply NewPacket_out in E. destruct E as [_ [_ ->]]. reflexivity.
  - apply periodicUpdate_only_sent, only_sent_fields in E.
    destruct E as [-> _]. reflexivity.
  - unfold onVerified in E.
    destruct (checkCompletedLevel _ v) as [h2| |] eqn:E2; simpl in E;
      try discriminate.
    apply checkCompletedLevel_only_sent, only_sent_fields in E2.
    destruct E2 as [El _].
    unfold checkFinalSignature, newBest, chan_send in E.
    repeat match type of E with
           | (if ?b then _ else _) = _ => destruct b
           | match ?o with Some _ => _ | None => _ end = _ => destruct o
           | bind (if ?b then _ else _) _ = _ => destruct b; simpl in E
           end;
      try discriminate; injection E as <-;
      (transitivity (levels h2); [destruct h2; reflexivity|]);
      rewrite El; destruct h; reflexivity.
  - unfold Stop, chan_close in E.
    cbn [set_done set_proc set_ticker_stopped out] in E.
    destruct (chan_closed (out h)); simpl in E; try discriminate.
    injection E as <-. destruct h. reflexivity.
  - destruct (chan_recv (out h)) as [[m ch]|];
      injection E as <-; destruct h; reflexivity.
Qed.

(** C8: on an aggregator built by [NewHandel] with threshold [T], in every
    state that it reaches, a call of [checkFinalSignature] puts a
    multi-signature on the output stream only if its cardinality is at
    least [T], and every multi-signature that the stream carries after the
    call has cardinality at least [T]. *)
Theorem checkFinalSignature_threshold
  (r : Registry) (id : Identity) (msg : string) (s : Signature)
  (config : Config) (newStore : signatureStore)
  (h0 h h' : Handel) (v : sigPair) :
  NewHandel r id msg s config newStore = Return h0 ->
  reachable h0 h ->
  checkFinalSignature h v = Return h' ->
  (chan_buf (out h') = chan_buf (out h)
   \/ exists m, chan_buf (out h') = (chan_buf (out h) ++ [m])%list
                /\ ContributionsThreshold config (Size r)
                   <= Cardinality m)
  /\ Forall (fun m => ContributionsThreshold config (Size r)
                      <= Cardinality m)
            (chan_buf (out h')).
Proof.
  intros E0 Hr E.
  pose proof (reachable_out_above _ _ _ (NewHandel_out_above _ _ _ _ _ _ _ E0)
                Hr) as [HT Hall].
  apply checkFinalSignature_emits in E.
  destruct E as [_ [Eb|[m [Eb Hm]]]]; rewrite Eb.
  - split; [left; reflexivity | assumption].
  - rewrite HT in Hm. split.
    + right. exists m. split; [reflexivity | assumption].
    + apply Forall_app. split; [assumption|].
      constructor; [assumption | constructor].
Qed.

End AggregatorProperties.

(** ** The properties on the sample aggregator *)

Lemma levels_never_change_witness :
  exists h',
    do_calls sample_calls sample_h = Return h'
    /\ levels h' = levels sample_h
    /\ createLevels (FakeRegistry 4)
         (NewPartitioner sample_config 1 (FakeRegistry 4))
       = Return (levels h').
Proof.
  let r := eval vm_compute in (do_calls sample_calls sample_h) in
  match r with
  | Return ?h' =>
    assert (E : do_calls sample_calls sample_h = Return h')
      by (vm_compute; reflexivity);
    exists h'
  end.
  split; [exact E|]. split.
  - exact (proj1 (@levels_never_change sample_collaborators) _ _ _ E).
  - apply (proj2 (@levels_never_change sample_collaborators)
             (FakeRegistry 4) (mkIdentity 1 "" "") "msg" "sig1"
             sample_config [] sample_h sample_calls).
    + vm_compute. reflexivity.
    + exact E.
Defined.

(** C1 on the code: one second after the start, with a level timeout of
    100 ms, level 2 has [sendStarted = false] and its timeout has passed;
    the tick sends the level's signature, from the copy on which it set
    the flag, and the entry of the levels array still has
    [sendStarted = false]. *)
Theorem periodicUpdate_sendStarted_not_stored :
  exists h1 h2 L1 L2,
    Start sample_h 0 = Return h1
    /\ nth_error (levels h1) 1 = Some L1
    /\ sendStarted L1 = false
    /\ (level_id L1 - 1) * millis (LevelTimeout (h_c h1))
       <= millis (1000000000 - startTime h1)
    /\ periodicUpdate h1 1000000000 = Return h2
    /\ nth_error (levels h2) 1 = Some L2
    /\ sendStarted L2 = false
    /\ map (fun sent => PacketLevel (snd sent)) (net h2) = [1; 1; 2].
Proof.
  let r := eval vm_compute in (Start sample_h 0) in
  match r with
  | Return ?h1 =>
    exists h1;
    let r2 := eval vm_compute in (periodicUpdate h1 1000000000) in
    match r2 with
    | Return ?h2 => exists h2
    end
  end.
  do 2 eexists.
  repeat split; try (vm_compute; reflexivity).
  vm_compute. discriminate.
Qed.

(** C3 on the code: the second [Stop] on a started aggregator panics. *)
Lemma Stop_twice_panics :
  exists h1 h2,
    Start sample_h 0 = Return h1
    /\ Stop h1 = Return h2
    /\ Stop h2 = Panic "close of closed channel".
Proof.
  let r := eval vm_compute in (Start sample_h 0) in
  match r with
  | Return ?h1 =>
    exists h1;
    let r2 := eval vm_compute in (Stop h1) in
    match r2 with
    | Return ?h2 => exists h2
    end
  end.
  repeat split; vm_compute; reflexivity.
Qed.

Lemma Stop_closes_once_witness :
  exists h1,
    Stop sample_h = Return h1
    /\ done h1 = true
    /\ chan_closed (out h1) = true
    /\ chan_buf (out h1) = chan_buf (out sample_h)
    /\ ticker_stopped h1 = true
    /\ proc_stopped (proc h1) = true
    /\ levels h1 = levels sample_h
    /\ Stop h1 = Panic "close of closed channel".
Proof.
  apply (@Stop_closes_once sample_collaborators sample_h).
  reflexivity.
Defined.

(** A verified signature that brings the full signature to the threshold
    is put on the output stream. *)
Example onVerified_emits :
  exists h1,
    onVerified sample_h sample_verified = Return h1
    /\ map Cardinality (chan_buf (out h1)) = [3]
    /\ threshold h1 = 3.
Proof.
  let r := eval vm_compute in (onVerified sample_h sample_verified) in
  match r with
  | Return ?h1 => exists h1
  end.
  repeat split; vm_compute; reflexivity.
Qed.

Lemma checkFinalSignature_threshold_witness :
  exists h h',
    exec sample_h (EvVerified sample_verified) = Return h
    /\ checkFinalSignature h sample_verified = Return h'
    /\ (chan_buf (out h') = chan_buf (out h)
        \/ exists m, chan_buf (out h') = (chan_buf (out h) ++ [m])%list
                     /\ ContributionsThreshold sample_config
                          (Size (FakeRegistry 4)) <= Cardinality m)
    /\ Forall (fun m => ContributionsThreshold sample_config
                          (Size (FakeRegistry 4)) <= Cardinality m)
              (chan_buf (out h')).
Proof.
  let r := eval vm_compute in (exec sample_h (EvVerified sample_verified)) in
  match r with
  | Return ?h =>
    assert (E1 : exec sample_h (EvVerified sample_verified) = Return h)
      by (vm_compute; reflexivity);
    exists h;
    let r2 := eval vm_compute in (checkFinalSignature h sample_verified) in
    match r2 with
    | Return ?h' =>
      assert (E2 : checkFinalSignature h sample_verified = Return h')
        by (vm_compute; reflexivity);
      exists h'
    end
  end.
  split; [exact E1|]. split; [exact E2|].
  apply (@checkFinalSignature_threshold sample_collaborators
           (FakeRegistry 4) (mkIdentity 1 "" "") "msg" "sig1" sample_config
           [] sample_h _ _ sample_verified).
  - vm_compute. reflexivity.
  - eapply reach_step; [apply reach_init | exact E1].
  - exact E2.
Defined.

Lemma NewPacket_malformed_witness :
  exists h',
    NewPacket sample_h sample_bad_packet = Return h'
    /\ h' = set_stats sample_h
              (mkHStats (msgSentCt (stats sample_h))
                        (int_add (msgRcvCt (stats sample_h)) 1))
    /\ (min_int <= msgRcvCt (stats sample_h) < max_int ->
        msgRcvCt (stats h') = msgRcvCt (stats sample_h) + 1)
    /\ msgSentCt (stats h') = msgSentCt (stats sample_h)
    /\ proc h' = proc sample_h
    /\ Incoming (proc h') = Incoming (proc sample_h).
Proof.
  apply (@NewPacket_malformed sample_collaborators sample_h
           sample_bad_packet).
  - reflexivity.
  - unfold Packet_wf. simpl. lia.
  - left. vm_compute. discriminate.
Defined.

Lemma NewPacket_done_witness :
  NewPacket (set_done sample_h true) sample_bad_packet
  = Return (set_done sample_h true).
Proof.
  apply (@NewPacket_done sample_collaborators).
  reflexivity.
Defined.

(** A well-formed packet is handed to the pipeline. *)
Example NewPacket_enqueues :
  exists h',
    NewPacket sample_h (mkPacket 2 2 "ms") = Return h'
    /\ map level (Incoming (proc h')) = [2]
    /\ msgRcvCt (stats h') = 1.
Proof.
  let r := eval vm_compute in (NewPacket sample_h (mkPacket 2 2 "ms")) in
  match r with
  | Return ?h' => exists h'
  end.
  repeat split; vm_compute; reflexivity.
Qed.

(** * Further properties *)

(** ** Candidate tree and registry *)

Lemma Identities_in_bounds (r : Registry) (from to : Z) :
  0 <= from <= to -> to <= Size r ->
  Identities r from to
  = Some (firstn (Z.to_nat (to - from)) (skipn (Z.to_nat from) r)).
Proof.
  intros Hft Hto. unfold Identities, inBound.
  replace (from <? 0) with false by (symmetry; zbool).
  replace (from >? Size r) with false by (symmetry; zbool).
  replace (to <? 0) with false by (symmetry; zbool).
  replace (to >? Size r) with false by (symmetry; zbool).
  replace (to <? from) with false by (symmetry; zbool).
  reflexivity.
Qed.

Lemma Identities_out_of_bounds (r : Registry) (from to : Z) :
  ~ (0 <= from <= to /\ to <= Size r) -> Identities r from to = None.
Proof.
  intros Hn. unfold Identities, inBound.
  destruct (from <? 0) eqn:E1; [reflexivity|].
  destruct (from >? Size r) eqn:E2; [reflexivity|].
  destruct (to <? 0) eqn:E3; [reflexivity|].
  destruct (to >? Size r) eqn:E4; [reflexivity|].
  destruct (to <? from) eqn:E5; [reflexivity|].
  exfalso. apply Hn. rewrite Z.gtb_ltb in E2, E4.
  apply Z.ltb_ge in E1, E2, E3, E4, E5. lia.
Qed.

Lemma Identities_len_le (r : Registry) (from to : Z)
  (ids : list Identity) :
  Identities r from to = Some ids -> len ids <= Size r.
Proof.
  unfold Identities.
  destruct (negb (inBound r from) || negb (inBound r to)); [discriminate|].
  destruct (to <? from); [discriminate|].
  intros E. injection E as <-. unfold len, Size.
  rewrite length_firstn, length_skipn. lia.
Qed.

Lemma FullRange_len_le (c : candidateTree) (lv : Z) (ids : list Identity) :
  FullRange c lv = Ok ids -> len ids <= Size (ct_reg c).
Proof.
  unfold FullRange.
  destruct ((lv <? 1) || (lv >? ct_bitsize c)); [discriminate|].
  destruct (walk c (lv - 1) (Z.to_nat (ct_bitsize c)) 0 (ct_size c))
    as [mn mx].
  destruct (Identities (ct_reg c) mn mx) as [l|] eqn:E; [|discriminate].
  intros E'. injection E' as <-. exact (Identities_len_le _ _ _ _ E).
Qed.

(** The binomial partitioner hands out slices of the registry. *)
Lemma binomialPartitioner_bounded (id : Z) (r : Registry) (lv cnt : Z) :
  Size r <= max_int ->
  len (fst (binomialPartitioner id r lv cnt)) <= max_int.
Proof.
  intros Hr. unfold binomialPartitioner.
  destruct (FullRange (newCandidateTree id r) lv) as [ids|] eqn:E.
  - apply FullRange_len_le in E. cbn [newCandidateTree ct_reg fst] in *.
    unfold len in *. rewrite length_firstn. lia.
  - cbn. unfold max_int. lia.
Qed.

(** X1: a level in [1 .. bitsize] always yields a slice of the registry,
    whatever the registry and the anchor: the error of the registry
    lookup is never returned; a level outside is rejected. *)
Theorem FullRange_never_registry_error (reg : Registry) (a level : Z) :
  (level < 1 \/ log2 (Size reg) < level ->
   FullRange (newCandidateTree a reg) level
   = Error "handel: invalid level for computing candidate set")
  /\ (1 <= level <= log2 (Size reg) ->
      exists min max ids,
        0 <= min <= max /\ max <= Size reg
        /\ Identities reg min max = Some ids
        /\ FullRange (newCandidateTree a reg) level = Ok ids
        /\ len ids = max - min).
Proof.
  unfold FullRange, newCandidateTree. cbn [ct_bitsize ct_size ct_reg].
  split.
  - intros Hl.
    replace ((level <? 1) || (level >? log2 (Size reg))) with true;
      [reflexivity|].
    symmetry. apply orb_true_iff. rewrite Z.gtb_ltb.
    destruct Hl; [left | right]; apply Z.ltb_lt; assumption.
  - intros Hl.
    replace (level <? 1) with false by (symmetry; zbool).
    replace (level >? log2 (Size reg)) with false by (symmetry; zbool).
    cbv [orb].
    set (c := {| ct_id := a; ct_bitsize := log2 (Size reg);
                 ct_size := Size reg; ct_reg := reg |}).
    pose proof (walk_bounds c (level - 1) (Z.to_nat (log2 (Size reg)))
                  0 (Size reg)) as Hb.
    cbn [ct_size c] in Hb.
    assert (0 <= Size reg) by (unfold Size; lia).
    specialize (Hb ltac:(lia) ltac:(lia)).
    destruct (walk c (level - 1) (Z.to_nat (log2 (Size reg))) 0 (Size reg))
      as [mn mx]. cbn [fst snd] in Hb.
    exists mn, mx. rewrite Identities_in_bounds by lia.
    eexists. repeat split; try lia.
    unfold len, Size in *. rewrite length_firstn, length_skipn. lia.
Qed.

Lemma FullRange_never_registry_error_witness :
  FullRange (newCandidateTree 4 (FakeRegistry 5)) 4
  = Error "handel: invalid level for computing candidate set"
  /\ exists min max ids,
       0 <= min <= max /\ max <= Size (FakeRegistry 5)
       /\ Identities (FakeRegistry 5) min max = Some ids
       /\ FullRange (newCandidateTree 4 (FakeRegistry 5)) 2 = Ok ids
       /\ len ids = max - min.
Proof.
  split.
  - apply (FullRange_never_registry_error (FakeRegistry 5) 4 4).
    right. vm_compute. reflexivity.
  - apply (FullRange_never_registry_error (FakeRegistry 5) 4 2).
    vm_compute. split; discriminate.
Defined.

(** X2: on a dense registry of [2^B] identities, the anchor together with
    the ids of the levels [1 .. j] is the aligned block of [2^j] ids that
    holds the anchor. *)
Theorem FullRange_levels_fill_block (reg : Registry) (B a j : Z) :
  Size reg = 2 ^ B -> dense reg -> 0 <= a < Size reg -> 0 <= j <= B ->
  forall x,
    (x = a
     \/ exists k ids, 1 <= k <= j
                      /\ FullRange (newCandidateTree a reg) k = Ok ids
                      /\ In x (ids_of ids))
    <-> x / 2 ^ j = a / 2 ^ j.
Proof.
  intros HN Hd Ha Hj x. split.
  - intros [->|[k [ids [Hk [HF Hin]]]]]; [reflexivity|].
    rewrite (FullRange_mem reg B a k ids Hd HN Ha HF) in Hin.
    apply sibling_agrees in Hin; [|lia].
    apply (agree_up x a k (j - k)) in Hin; try lia.
    replace (k + (j - k)) with j in Hin by lia. exact Hin.
  - intros E. destruct (Z.eq_dec x a) as [->|Hne]; [left; reflexivity|].
    right. destruct (first_agree x a (Z.to_nat j)) as [k [Hk Hs]].
    + rewrite Z2Nat.id by lia. exact E.
    + exact Hne.
    + rewrite Z2Nat.id in Hk by lia.
      destruct (FullRange_block reg B a k Hd HN Ha ltac:(lia))
        as [ids [HF _]].
      exists k, ids. split; [lia|]. split; [exact HF|].
      rewrite (FullRange_mem reg B a k ids Hd HN Ha HF). exact Hs.
Qed.

Lemma FullRange_levels_fill_block_witness :
  (6 = 5
   \/ exists k ids, 1 <= k <= 2
                    /\ FullRange (newCandidateTree 5 (FakeRegistry 8)) k
                       = Ok ids
                    /\ In 6 (ids_of ids))
  <-> 6 / 2 ^ 2 = 5 / 2 ^ 2.
Proof.
  apply (FullRange_levels_fill_block (FakeRegistry 8) 3 5 2).
  - reflexivity.
  - reflexivity.
  - vm_compute. split; [discriminate | reflexivity].
  - lia.
Defined.

(** X3: [isSet] is the bit test of the binary representation. *)
Theorem isSet_testbit (nb index : Z) :
  0 <= index -> isSet nb index = Z.testbit nb index.
Proof.
  intros Hi. rewrite isSet_odd by assumption.
  rewrite Z.testbit_odd, Z.shiftr_div_pow2 by assumption. reflexivity.
Qed.

Lemma isSet_testbit_witness : isSet 6 2 = Z.testbit 6 2.
Proof. apply isSet_testbit. lia. Defined.

(** *** The registry *)

Lemma nth_error_slice {A : Type} (l : list A) (from n i : nat) :
  (i < n)%nat ->
  nth_error (firstn n (skipn from l)) i = nth_error l (from + i).
Proof.
  intros Hi. rewrite nth_error_firstn.
  replace (i <? n)%nat with true by (symmetry; apply Nat.ltb_lt; lia).
  apply nth_error_skipn.
Qed.

(** X4: [Identities(from, to)] succeeds exactly when
    [0 <= from <= to <= Size]; the slice has [to - from] identities and
    its [i]-th one is the identity that [Identity(from + i)] returns. *)
Theorem Identities_Identity (r : Registry) (from to : Z) :
  (Identities r from to = None <-> ~ (0 <= from <= to /\ to <= Size r))
  /\ forall ids,
       Identities r from to = Some ids ->
       len ids = to - from
       /\ forall i, 0 <= i < to - from ->
            exists x, reg_Identity r (from + i) = Some x
                      /\ nth_error ids (Z.to_nat i) = Some x.
Proof.
  split.
  - split.
    + intros E [Hft Hto]. rewrite Identities_in_bounds in E by assumption.
      discriminate.
    + apply Identities_out_of_bounds.
  - intros ids E.
    destruct (Z_le_dec 0 from), (Z_le_dec from to), (Z_le_dec to (Size r));
      try (rewrite Identities_out_of_bounds in E by lia; discriminate).
    rewrite Identities_in_bounds in E by lia. injection E as <-.
    unfold len, Size in *. split.
    + rewrite length_firstn, length_skipn. lia.
    + intros i Hi. unfold reg_Identity, Size.
      replace (from + i <? 0) with false by (symmetry; zbool).
      replace (from + i >=? Z.of_nat (length r)) with false
        by (symmetry; zbool).
      cbv [orb]. rewrite nth_error_slice by lia.
      replace (Z.to_nat (from + i)) with (Z.to_nat from + Z.to_nat i)%nat
        by lia.
      destruct (nth_error r (Z.to_nat from + Z.to_nat i)) as [x|] eqn:En.
      * exists x. split; reflexivity.
      * apply nth_error_None in En. lia.
Qed.

Lemma Identities_Identity_witness :
  exists ids,
    Identities (FakeRegistry 8) 2 5 = Some ids
    /\ len ids = 5 - 2
    /\ forall i, 0 <= i < 5 - 2 ->
         exists x, reg_Identity (FakeRegistry 8) (2 + i) = Some x
                   /\ nth_error ids (Z.to_nat i) = Some x.
Proof.
  eexists. split; [reflexivity|].
  apply (proj2 (Identities_Identity (FakeRegistry 8) 2 5)).
  reflexivity.
Defined.

Lemma firstn_plus {A : Type} (n m : nat) (l : list A) :
  firstn (n + m) l = (firstn n l ++ firstn m (skipn n l))%list.
Proof.
  revert l. induction n as [|n IH]; intros l; [reflexivity|].
  destruct l as [|x l]; simpl.
  - rewrite firstn_nil. reflexivity.
  - rewrite IH. reflexivity.
Qed.

(** X5: adjacent slices concatenate, and the slice [[0, Size)] is the
    whole registry. *)
Theorem Identities_app (r : Registry) (a b c : Z) :
  0 <= a <= b -> b <= c <= Size r ->
  exists l1 l2,
    Identities r a b = Some l1
    /\ Identities r b c = Some l2
    /\ Identities r a c = Some (l1 ++ l2)%list
    /\ Identities r 0 (Size r) = Some r.
Proof.
  intros Hab Hbc.
  assert (0 <= Size r) by (unfold Size; lia).
  rewrite !Identities_in_bounds by lia.
  eexists _, _. repeat split.
  - f_equal.
    replace (Z.to_nat (c - a))
      with (Z.to_nat (b - a) + Z.to_nat (c - b))%nat by lia.
    rewrite firstn_plus. f_equal.
    rewrite skipn_skipn. f_equal. f_equal. lia.
  - rewrite Z.sub_0_r. unfold Size. rewrite Nat2Z.id. simpl.
    rewrite firstn_all. reflexivity.
Qed.

Lemma Identities_app_witness :
  exists l1 l2,
    Identities (FakeRegistry 8) 1 3 = Some l1
    /\ Identities (FakeRegistry 8) 3 8 = Some l2
    /\ Identities (FakeRegistry 8) 1 8 = Some (l1 ++ l2)%list
    /\ Identities (FakeRegistry 8) 0 (Size (FakeRegistry 8))
       = Some (FakeRegistry 8).
Proof.
  apply (Identities_app (FakeRegistry 8) 1 3 8).
  - lia.
  - vm_compute. split; discriminate.
Defined.

(** *** More on the cursor of a level *)

(** Without passing the end, the loop of [PickNextAt] reads a slice. *)
Lemma pick_slice (nds : list Identity) (n : nat) (pos : Z) :
  0 <= pos < len nds -> pos + Z.of_nat n <= len nds -> len nds <= max_int ->
  pick nds n pos
  = Return (firstn n (skipn (Z.to_nat pos) nds),
            (pos + Z.of_nat n) mod len nds).
Proof.
  intros Hp Hn HL.
  destruct (pick_spec nds n pos Hp HL) as [res [E [Hlen Hel]]].
  rewrite E. do 2 f_equal.
  apply nth_error_ext. intros i.
  destruct (Nat.lt_ge_cases i n) as [Hi|Hi].
  - rewrite Hel by assumption.
    rewrite Z.mod_small by lia.
    rewrite nth_error_firstn.
    replace (i <? n)%nat with true by (symmetry; apply Nat.ltb_lt; lia).
    rewrite nth_error_skipn. f_equal. lia.
  - rewrite (proj2 (nth_error_None res i)) by lia.
    symmetry. apply nth_error_None.
    rewrite length_firstn. lia.
Qed.

(** The loop of [PickNextAt] over [n + m] rounds is the loop over [n]
    rounds followed by the loop over [m] rounds. *)
Lemma pick_app (nds : list Identity) (n m : nat) :
  forall pos,
    pick nds (n + m) pos
    = ('(r1, p1) <- pick nds n pos ;;
       '(r2, p2) <- pick nds m p1 ;;
       Return ((r1 ++ r2)%list, p2)).
Proof.
  induction n as [|n IH]; intros pos.
  - simpl. destruct (pick nds m pos) as [[r2 p2]| |]; reflexivity.
  - simpl pick.
    destruct (index nds pos) as [x| |]; cbn [bind]; try reflexivity.
    rewrite IH.
    destruct (pick nds n _) as [[r1 p1]| |]; cbn [bind]; try reflexivity.
    destruct (pick nds m p1) as [[r2 p2]| |]; reflexivity.
Qed.

Lemma wrap_int_idem_l (a b : Z) : wrap_int (wrap_int a + b) = wrap_int (a + b).
Proof.
  unfold wrap_int.
  replace ((a + 2 ^ 63) mod 2 ^ 64 - 2 ^ 63 + b + 2 ^ 63)
    with ((a + 2 ^ 63) mod 2 ^ 64 + b) by lia.
  rewrite Zplus_mod_idemp_l. f_equal. f_equal. lia.
Qed.

(** X6: asked for at least as many identities as the level has,
    [PickNextAt] returns every candidate once, starting at the cursor and
    wrapping around, and leaves the cursor where it was. *)
Theorem PickNextAt_rotation (l : Level) (count : Z) :
  cursor_ok l -> len (nodes l) <= count ->
  exists l',
    PickNextAt l count
    = Return ((skipn (Z.to_nat (sendPos l)) (nodes l)
               ++ firstn (Z.to_nat (sendPos l)) (nodes l))%list,
              true, l')
    /\ sendPos l' = sendPos l
    /\ sendPeersCt l' = int_add (sendPeersCt l) (len (nodes l)).
Proof.
  intros [Hpos HL] Hc. unfold PickNextAt.
  rewrite Z.min_r by assumption.
  replace (len (nodes l) <? 0) with false by (symmetry; zbool).
  set (L := len (nodes l)) in *. set (p := sendPos l) in *.
  replace (Z.to_nat L) with (Z.to_nat (L - p) + Z.to_nat p)%nat by lia.
  rewrite pick_app.
  rewrite pick_slice by (fold L; rewrite ?Z2Nat.id by lia; lia).
  cbn [bind]. rewrite Z2Nat.id by lia. fold L.
  replace (p + (L - p)) with L by lia. rewrite Z.mod_same by lia.
  destruct (Z.eq_dec p 0) as [E0|N0].
  - rewrite E0. simpl pick. cbn [bind].
    eexists. split.
    + rewrite Z.sub_0_r. unfold L, len. rewrite Nat2Z.id.
      simpl skipn. rewrite firstn_all. reflexivity.
    + cbn [sendPos sendPeersCt]. split; reflexivity.
  - rewrite pick_slice by (fold L; rewrite ?Z2Nat.id by lia; lia).
    cbn [bind]. fold L. rewrite Z2Nat.id by lia.
    rewrite Z.add_0_l, Z.mod_small by lia.
    eexists. split.
    + do 3 f_equal.
      rewrite firstn_all2; [reflexivity|].
      rewrite length_skipn. unfold L, len in *. lia.
    + cbn [sendPos sendPeersCt]. split; reflexivity.
Qed.

Lemma PickNextAt_rotation_witness :
  exists l',
    PickNextAt sample_level 7
    = Return ((skipn (Z.to_nat (sendPos sample_level)) (nodes sample_level)
               ++ firstn (Z.to_nat (sendPos sample_level))
                    (nodes sample_level))%list,
              true, l')
    /\ sendPos l' = sendPos sample_level
    /\ sendPeersCt l'
       = int_add (sendPeersCt sample_level) (len (nodes sample_level)).
Proof.
  apply (PickNextAt_rotation sample_level 7).
  - vm_compute. repeat split; discriminate || reflexivity.
  - vm_compute. discriminate.
Defined.

(** X7: two calls of [PickNextAt] in a row, for [a] and then [b]
    identities with [a + b] at most the number of candidates, return
    together what one call for [a + b] returns, and leave the level in
    the same state. *)
Theorem PickNextAt_compose (l l1 l2 : Level) (a b : Z)
  (r1 r2 : list Identity) (ok1 ok2 : bool) :
  0 <= a -> 0 <= b -> a + b <= len (nodes l) ->
  PickNextAt l a = Return (r1, ok1, l1) ->
  PickNextAt l1 b = Return (r2, ok2, l2) ->
  PickNextAt l (a + b) = Return ((r1 ++ r2)%list, true, l2).
Proof.
  intros Ha Hb Hab. unfold PickNextAt.
  rewrite (Z.min_l a), (Z.min_l (a + b)) by lia.
  replace (a <? 0) with false by (symmetry; zbool).
  replace (a + b <? 0) with false by (symmetry; zbool).
  rewrite Z2Nat.inj_add, pick_app by assumption.
  destruct (pick (nodes l) (Z.to_nat a) (sendPos l)) as [[q1 p1]| |];
    cbn [bind]; try discriminate.
  intros E1. injection E1 as -> _ <-.
  cbn [nodes sendPos sendPeersCt level_id sendStarted rcvCompleted
       sendSigSize].
  rewrite Z.min_l by lia.
  replace (b <? 0) with false by (symmetry; zbool).
  destruct (pick (nodes l) (Z.to_nat b) p1) as [[q2 p2]| |];
    cbn [bind]; try discriminate.
  intros E2. injection E2 as -> _ <-.
  unfold int_add. rewrite wrap_int_idem_l, Z.add_assoc. reflexivity.
Qed.

Lemma PickNextAt_compose_witness :
  exists r1 r2 l1 l2,
    PickNextAt sample_level 2 = Return (r1, true, l1)
    /\ PickNextAt l1 1 = Return (r2, true, l2)
    /\ PickNextAt sample_level (2 + 1) = Return ((r1 ++ r2)%list, true, l2).
Proof.
  let r := eval vm_compute in (PickNextAt sample_level 2) in
  match r with
  | Return (?r1, _, ?l1) =>
    let r' := eval vm_compute in (PickNextAt l1 1) in
    match r' with
    | Return (?r2, _, ?l2) =>
      exists r1, r2, l1, l2;
      assert (E1 : PickNextAt sample_level 2 = Return (r1, true, l1))
        by (vm_compute; reflexivity);
      assert (E2 : PickNextAt l1 1 = Return (r2, true, l2))
        by (vm_compute; reflexivity)
    end
  end.
  split; [exact E1|]. split; [exact E2|].
  eapply (PickNextAt_compose sample_level _ _ 2 1 _ _ true true);
    [lia | lia | vm_compute; discriminate | exact E1 | exact E2].
Defined.


(** ** Dispatch *)

(** *** Construction of the levels *)

Lemma createLevels_from_spec (r : Registry) (part : Partitioner) (n : nat) :
  forall i, 0 <= i ->
    exists lvls,
      createLevels_from r part i n = Return lvls
      /\ length lvls = n
      /\ forall k, (k < n)%nat ->
           nth_error lvls k
           = Some (fresh_level (i + Z.of_nat k + 1)
                     (fst (part (i + Z.of_nat k + 1) (Size r + 1)))).
Proof.
  induction n as [|n IH]; intros i Hi.
  - exists []. repeat split. intros k Hk. lia.
  - simpl createLevels_from.
    destruct (part (i + 1) (Size r + 1)) as [nds ok] eqn:Ep.
    unfold NewLevel.
    replace (i + 1 <=? 0) with false by (symmetry; zbool).
    cbn [bind].
    destruct (IH (i + 1) ltac:(lia)) as [rest [Er [Hlen Hnth]]].
    rewrite Er. cbn [bind].
    eexists. split; [reflexivity|]. split; [simpl; lia|].
    intros [|k] Hk.
    + simpl. rewrite Z.add_0_r, Ep. reflexivity.
    + simpl nth_error. rewrite Hnth by lia.
      replace (i + 1 + Z.of_nat k + 1) with (i + Z.of_nat (S k) + 1) by lia.
      reflexivity.
Qed.

Lemma createLevels_len (r : Registry) (part : Partitioner)
  (lvls : list Level) :
  createLevels r part = Return lvls -> len lvls = log2 (Size r).
Proof.
  intros E.
  destruct (createLevels_from_spec r part (Z.to_nat (log2 (Size r))) 0
              ltac:(lia)) as [lvls' [E' [Hlen _]]].
  unfold createLevels in E. rewrite E in E'. injection E' as <-.
  assert (0 <= log2 (Size r)) by (unfold log2; apply Z.log2_up_nonneg).
  unfold len. lia.
Qed.

(** X9: [createLevels] always returns; it builds [log2(Size)] levels, the
    one at index [i] with id [i + 1], the candidates that the partitioner
    gives for that id, cursor and counters at zero, and only level 1
    started and complete. *)
Theorem createLevels_spec (r : Registry) (part : Partitioner) :
  exists lvls,
    createLevels r part = Return lvls
    /\ len lvls = log2 (Size r)
    /\ forall i, 0 <= i < log2 (Size r) ->
         nth_error lvls (Z.to_nat i)
         = Some (fresh_level (i + 1) (fst (part (i + 1) (Size r + 1)))).
Proof.
  unfold createLevels.
  destruct (createLevels_from_spec r part (Z.to_nat (log2 (Size r))) 0
              ltac:(lia)) as [lvls [E [Hlen Hnth]]].
  exists lvls. split; [exact E|].
  assert (0 <= log2 (Size r)) by (unfold log2; apply Z.log2_up_nonneg).
  split; [unfold len; lia|].
  intros i Hi. rewrite Hnth by lia.
  rewrite Z2Nat.id, Z.add_0_l by lia. reflexivity.
Qed.

Lemma createLevels_spec_witness :
  nth_error sample_levels (Z.to_nat 1)
  = Some (fresh_level (1 + 1)
            (fst (binomialPartitioner 1 (FakeRegistry 4) (1 + 1)
                    (Size (FakeRegistry 4) + 1)))).
Proof.
  destruct (createLevels_spec (FakeRegistry 4)
              (binomialPartitioner 1 (FakeRegistry 4)))
    as [lvls [E [_ Hnth]]].
  assert (E' : createLevels (FakeRegistry 4)
                 (binomialPartitioner 1 (FakeRegistry 4))
               = Return sample_levels) by (vm_compute; reflexivity).
  rewrite E' in E. injection E as <-.
  apply Hnth. vm_compute. split; [discriminate | reflexivity].
Defined.

(** *** What is handed to the network *)

Lemma nth_error_rotate (l : Level) (i : nat) :
  0 <= sendPos l < len (nodes l) ->
  (i < length (nodes l))%nat ->
  nth_error (rotate_from l) i
  = nth_error (nodes l)
      (Z.to_nat ((sendPos l + Z.of_nat i) mod len (nodes l))).
Proof.
  unfold rotate_from, len. intros Hp Hi.
  set (p := Z.to_nat (sendPos l)).
  assert (Hsk : length (skipn p (nodes l)) = (length (nodes l) - p)%nat)
    by apply length_skipn.
  destruct (Nat.lt_ge_cases i (length (nodes l) - p)) as [Hlt|Hge].
  - rewrite nth_error_app1 by lia.
    rewrite nth_error_skipn, Z.mod_small by lia.
    f_equal. lia.
  - rewrite nth_error_app2 by lia.
    rewrite Hsk, nth_error_firstn.
    replace (i - (length (nodes l) - p) <? p)%nat with true
      by (symmetry; apply Nat.ltb_lt; lia).
    f_equal.
    assert (E : (sendPos l + Z.of_nat i) mod Z.of_nat (length (nodes l))
                = sendPos l + Z.of_nat i - Z.of_nat (length (nodes l))).
    { symmetry.
      apply (Z.mod_unique _ _ 1); lia. }
    rewrite E. lia.
Qed.

(** [PickNextAt] hands out [next_peers]. *)
Lemma PickNextAt_next_peers (l : Level) (count : Z) :
  0 <= count -> level_ok l ->
  exists l', PickNextAt l count = Return (next_peers l count, true, l').
Proof.
  intros Hc [Hok|Hnil].
  2:{ unfold PickNextAt, next_peers. rewrite Hnil.
      change (len []) with 0. rewrite Z.min_r by assumption.
      simpl. eexists. reflexivity. }
  destruct (PickNextAt_run l count Hc Hok) as [res [E [Hlen Hel]]].
  eexists. rewrite E. do 3 f_equal.
  destruct Hok as [Hp HL].
  unfold next_peers. apply nth_error_ext. intros i.
  assert (Hlen' : Z.to_nat (Z.min count (len (nodes l))) = length res)
    by (unfold len in *; lia).
  rewrite Hlen'.
  destruct (Nat.lt_ge_cases i (length res)) as [Hi|Hi].
  - rewrite Hel by assumption.
    rewrite nth_error_firstn.
    replace (i <? length res)%nat with true
      by (symmetry; apply Nat.ltb_lt; lia).
    symmetry. apply nth_error_rotate; [assumption|].
    unfold len in *. lia.
  - rewrite (proj2 (nth_error_None res i)) by lia.
    symmetry. apply nth_error_None.
    rewrite length_firstn. lia.
Qed.

Lemma len_next_peers (l : Level) (count : Z) :
  0 <= count -> level_ok l ->
  len (next_peers l count) = Z.min count (len (nodes l)).
Proof.
  intros Hc Hok. unfold next_peers, rotate_from, len.
  rewrite length_firstn, length_app, length_skipn, length_firstn.
  destruct Hok as [[Hp _]|Hnil].
  - unfold len in *. lia.
  - rewrite Hnil. simpl. lia.
Qed.

Section DispatchProperties.

Context `{Collaborators}.

Lemma net_sendTo (h : Handel) (l : Level) (ids : list Identity) :
  net (sendTo h (level_id l)
         (store_Combined (store h) (byte_sub (byte_of (level_id l)) 1)) ids)
  = (net h ++ sent_packets h l ids)%list.
Proof.
  unfold sendTo, sent_packets.
  destruct (MarshalBinary _); destruct h; cbn.
  - reflexivity.
  - rewrite app_nil_r. reflexivity.
Qed.

(** [sendUpdate] in closed form. *)
Lemma sendUpdate_closed (h : Handel) (l : Level) (count : Z) :
  0 <= count -> level_ok l ->
  sendUpdate h l count
  = Return (if sendStarted l && (sendPeersCt l <? len (nodes l))
            then sendTo h (level_id l)
                   (store_Combined (store h)
                      (byte_sub (byte_of (level_id l)) 1))
                   (next_peers l count)
            else h).
Proof.
  intros Hc Hl. unfold sendUpdate.
  destruct (sendStarted l); cbn [negb orb andb]; [|reflexivity].
  rewrite Z.geb_leb.
  destruct (len (nodes l) <=? sendPeersCt l) eqn:E.
  - apply Z.leb_le in E.
    replace (sendPeersCt l <? len (nodes l)) with false
      by (symmetry; zbool).
    reflexivity.
  - apply Z.leb_gt in E.
    replace (sendPeersCt l <? len (nodes l)) with true
      by (symmetry; zbool).
    destruct (PickNextAt_next_peers l count Hc Hl) as [l' E'].
    rewrite E'. reflexivity.
Qed.

(** X10: [sendUpdate] does nothing for a level that is not started or whose
    candidates were all contacted; otherwise it counts one sent message
    and hands to the network one packet for the next [count] candidates
    at the cursor, with the id of this node, the level, and the combined
    signature below the level; when that signature does not marshal the
    message is counted and nothing is sent. *)
Theorem sendUpdate_cases (h : Handel) (l : Level) (count : Z) :
  0 <= count -> level_ok l ->
  (sendStarted l = false \/ len (nodes l) <= sendPeersCt l ->
   sendUpdate h l count = Return h)
  /\ (sendStarted l = true /\ sendPeersCt l < len (nodes l) ->
      exists h',
        sendUpdate h l count = Return h'
        /\ only_sent h h'
        /\ msgSentCt (stats h') = int_add (msgSentCt (stats h)) 1
        /\ msgRcvCt (stats h') = msgRcvCt (stats h)
        /\ net h' = (net h ++ sent_packets h l (next_peers l count))%list
        /\ len (next_peers l count) = Z.min count (len (nodes l))).
Proof.
  intros Hc Hok.
  rewrite (sendUpdate_closed h l count Hc Hok).
  split.
  - intros [Hs|Hp].
    + rewrite Hs. reflexivity.
    + replace (sendPeersCt l <? len (nodes l)) with false
        by (symmetry; zbool).
      rewrite andb_false_r. reflexivity.
  - intros [Hs Hp]. rewrite Hs.
    replace (sendPeersCt l <? len (nodes l)) with true
      by (symmetry; zbool).
    cbn [andb]. eexists. split; [reflexivity|].
    split; [apply sendTo_only_sent|].
    split; [|split; [|split]].
    + unfold sendTo. destruct (MarshalBinary _); destruct h; reflexivity.
    + unfold sendTo. destruct (MarshalBinary _); destruct h; reflexivity.
    + apply net_sendTo.
    + apply len_next_peers; assumption.
Qed.


(** *** The two loops over the levels in closed form *)

Lemma only_sent_more (h h' : Handel) :
  only_sent h h' ->
  h_id h' = h_id h /\ store h' = store h /\ h_c h' = h_c h
  /\ levels h' = levels h /\ startTime h' = startTime h.
Proof.
  intros [st [n ->]]. destruct h. repeat split.
Qed.

Lemma sent_packets_frame (h h1 : Handel) (l : Level) (ids : list Identity) :
  only_sent h h1 -> sent_packets h1 l ids = sent_packets h l ids.
Proof.
  intros Hf. apply only_sent_more in Hf. destruct Hf as [Ei [Es _]].
  unfold sent_packets. rewrite Ei, Es. reflexivity.
Qed.

(** A loop whose rounds each append to the sent log appends the
    concatenation. *)
Lemma foreach_sends {X : Type} (P : X -> Prop)
  (f : X -> list (list Identity * Packet))
  (body : Handel -> X -> outcome Handel) (h : Handel) :
  (forall h1 x, only_sent h h1 -> P x ->
     exists h2, body h1 x = Return h2 /\ only_sent h1 h2
                /\ net h2 = (net h1 ++ f x)%list) ->
  forall xs, Forall P xs ->
  forall h1, only_sent h h1 ->
    exists h', foreach xs body h1 = Return h' /\ only_sent h1 h'
               /\ net h' = (net h1 ++ flat_map f xs)%list.
Proof.
  intros Hbody xs. induction xs as [|x xs IH]; intros HP h1 Hf.
  - exists h1. simpl. rewrite app_nil_r.
    repeat split. apply only_sent_refl.
  - inversion HP as [|? ? Hx Hxs]; subst.
    destruct (Hbody h1 x Hf Hx) as [h2 [E2 [F2 N2]]].
    destruct (IH Hxs h2 (only_sent_trans _ _ _ Hf F2)) as [h' [E' [F' N']]].
    exists h'. simpl. rewrite E2. cbn [bind].
    split; [exact E'|]. split; [exact (only_sent_trans _ _ _ F2 F')|].
    rewrite N', N2, app_assoc. reflexivity.
Qed.

(** One round of the loop of [periodicUpdate]. *)
Lemma tick_round (h h1 : Handel) (ms : Z) (l : Level) :
  only_sent h h1 -> level_ok l ->
  exists h2,
    sendUpdate h1
      (if negb (sendStarted l)
          && (ms >=? int_mul (int_sub (level_id l) 1)
                             (millis (LevelTimeout (h_c h1))))
       then {| level_id := level_id l;
               nodes := nodes l;
               sendStarted := true;
               rcvCompleted := rcvCompleted l;
               sendPos := sendPos l;
               sendPeersCt := sendPeersCt l;
               sendSigSize := sendSigSize l |}
       else l) 1 = Return h2
    /\ only_sent h1 h2
    /\ net h2 = (net h1 ++ tick_sends h ms l)%list.
Proof.
  intros Hf Hok.
  pose proof (only_sent_more _ _ Hf) as [_ [_ [Ec _]]].
  unfold tick_sends. rewrite Ec.
  remember (ms >=? int_mul (int_sub (level_id l) 1)
                          (millis (LevelTimeout (h_c h)))) as cond.
  set (l1 := if negb (sendStarted l) && cond then _ else l).
  assert (Hl1 : level_id l1 = level_id l /\ nodes l1 = nodes l
                /\ sendPos l1 = sendPos l /\ sendPeersCt l1 = sendPeersCt l
                /\ sendStarted l1 = sendStarted l || cond).
  { unfold l1. destruct (sendStarted l) eqn:Es, cond; cbn;
      rewrite ?Es; repeat split. }
  destruct Hl1 as [Eid [En [Ep [Ect Est]]]].
  assert (Hok1 : level_ok l1).
  { unfold level_ok, cursor_ok in *. rewrite En, Ep. exact Hok. }
  rewrite (sendUpdate_closed h1 l1 1 ltac:(lia) Hok1).
  eexists. split; [reflexivity|].
  rewrite Est, Ect, En.
  assert (Enp : next_peers l1 1 = next_peers l 1)
    by (unfold next_peers, rotate_from; rewrite En, Ep; reflexivity).
  destruct ((sendStarted l || cond) && (sendPeersCt l <? len (nodes l))).
  - split; [apply sendTo_only_sent|].
    rewrite net_sendTo, Enp.
    unfold sent_packets. rewrite Eid.
    fold (sent_packets h1 l (next_peers l 1)).
    rewrite (sent_packets_frame h h1) by assumption. reflexivity.
  - split; [apply only_sent_refl|]. rewrite app_nil_r. reflexivity.
Qed.

(** A tick in closed form. *)
Lemma periodicUpdate_closed (h : Handel) (t : Z) :
  Forall level_ok (levels h) ->
  exists h',
    periodicUpdate h t = Return h'
    /\ only_sent h h'
    /\ net h'
       = (net h
          ++ flat_map (tick_sends h (millis (t - startTime h)))
               (levels h))%list.
Proof.
  intros Hall. unfold periodicUpdate.
  exact (foreach_sends level_ok
           (tick_sends h (millis (t - startTime h)))
           (fun h' lvl =>
              sendUpdate h'
                (if negb (sendStarted lvl)
                    && (millis (t - startTime h) >=?
                        int_mul (int_sub (level_id lvl) 1)
                                (millis (LevelTimeout (h_c h'))))
                 then {| level_id := level_id lvl;
                         nodes := nodes lvl;
                         sendStarted := true;
                         rcvCompleted := rcvCompleted lvl;
                         sendPos := sendPos lvl;
                         sendPeersCt := sendPeersCt lvl;
                         sendSigSize := sendSigSize lvl |}
                 else lvl) 1)
           h
           (fun h1 x Hf Hx => tick_round h h1 _ x Hf Hx)
           (levels h) Hall h (only_sent_refl h)).
Qed.


(** One round of the loop of [checkCompletedLevel]. *)
Lemma burst_round (h h1 : Handel) (l : Level) :
  only_sent h h1 -> level_ok l -> 0 <= CandidateCount (h_c h) ->
  exists h2,
    (let m := store_Combined (store h1)
                (byte_sub (byte_of (level_id l)) 1) in
     let '(completed, lvl') := updateSigToSend l m in
     if completed then sendUpdate h1 lvl' (CandidateCount (h_c h1))
     else Return h1) = Return h2
    /\ only_sent h1 h2
    /\ net h2 = (net h1 ++ burst_sends h l)%list.
Proof.
  intros Hf Hok Hcc.
  pose proof (only_sent_more _ _ Hf) as [_ [Es [Ec _]]].
  unfold burst_sends. cbv zeta. rewrite Es, Ec.
  set (m := store_Combined (store h) (byte_sub (byte_of (level_id l)) 1)).
  unfold updateSigToSend. rewrite Z.geb_leb.
  destruct (Cardinality m <=? sendSigSize l) eqn:E1.
  - apply Z.leb_le in E1.
    replace (sendSigSize l <? Cardinality m) with false
      by (symmetry; zbool).
    cbn [andb]. exists h1. rewrite app_nil_r.
    repeat split. apply only_sent_refl.
  - apply Z.leb_gt in E1.
    replace (sendSigSize l <? Cardinality m) with true
      by (symmetry; zbool).
    cbn [sendSigSize nodes andb].
    destruct (Cardinality m =? len (nodes l)) eqn:E2.
    + set (l' := {| level_id := level_id l; nodes := nodes l;
                    sendStarted := true; rcvCompleted := rcvCompleted l;
                    sendPos := sendPos l; sendPeersCt := 0;
                    sendSigSize := Cardinality m |}).
      assert (Hok' : level_ok l') by exact Hok.
      change (exists h2,
                 sendUpdate h1 l' (CandidateCount (h_c h)) = Return h2
                 /\ only_sent h1 h2
                 /\ net h2
                    = (net h1
                       ++ (if true && (0 <? len (nodes l))
                           then sent_packets h l
                                  (next_peers l (CandidateCount (h_c h)))
                           else []))%list).
      rewrite (sendUpdate_closed h1 l' _ Hcc Hok').
      eexists. split; [reflexivity|].
      change (sendStarted l') with true.
      change (sendPeersCt l') with 0.
      change (nodes l') with (nodes l).
      destruct (true && (0 <? len (nodes l))).
      * split; [apply sendTo_only_sent|].
        rewrite net_sendTo.
        rewrite (sent_packets_frame h h1) by assumption. reflexivity.
      * split; [apply only_sent_refl|]. rewrite app_nil_r. reflexivity.
    + cbn [andb]. exists h1. rewrite app_nil_r.
      repeat split. apply only_sent_refl.
Qed.

Lemma upto_cons (a : Z) (n : nat) :
  map (fun k => a + Z.of_nat k) (seq 0 (S n))
  = a :: map (fun k => (a + 1) + Z.of_nat k) (seq 0 n).
Proof.
  simpl. rewrite Z.add_0_r. f_equal.
  rewrite <- seq_shift, map_map.
  apply map_ext. intros k. lia.
Qed.

(** The loop of [checkCompletedLevel] from index [a] on. *)
Lemma burst_loop (h : Handel) (n : nat) :
  0 <= CandidateCount (h_c h) ->
  forall a h1,
    only_sent h h1 -> 1 <= a ->
    a - 1 + Z.of_nat n = len (levels h) ->
    Forall level_ok (skipn (Z.to_nat (a - 1)) (levels h)) ->
    exists h',
      foreach (map (fun k => a + Z.of_nat k) (seq 0 n))
        (fun h' i =>
           lvl <- index (levels h') (i - 1) ;;
           let m := store_Combined (store h')
                      (byte_sub (byte_of (level_id lvl)) 1) in
           let '(completed, lvl') := updateSigToSend lvl m in
           if completed then sendUpdate h' lvl' (CandidateCount (h_c h'))
           else Return h')
        h1 = Return h'
      /\ only_sent h1 h'
      /\ net h'
         = (net h1
            ++ flat_map (burst_sends h)
                 (skipn (Z.to_nat (a - 1)) (levels h)))%list.
Proof.
  intros Hcc. induction n as [|n IH]; intros a h1 Hf Ha Hlen Hall.
  - simpl. exists h1.
    rewrite skipn_all2 by (unfold len in Hlen; lia).
    simpl. rewrite app_nil_r. repeat split. apply only_sent_refl.
  - rewrite upto_cons. simpl foreach.
    pose proof (only_sent_more _ _ Hf) as [_ [_ [_ [El _]]]].
    rewrite El.
    destruct (index_Return (levels h) (a - 1) ltac:(lia)) as [l [Ei En]].
    rewrite Ei. cbn [bind].
    assert (Hsk : skipn (Z.to_nat (a - 1)) (levels h)
                  = l :: skipn (Z.to_nat (a + 1 - 1)) (levels h)).
    { replace (Z.to_nat (a + 1 - 1)) with (S (Z.to_nat (a - 1))) by lia.
      clear - En. revert En. generalize (levels h).
      induction (Z.to_nat (a - 1)) as [|k IHk]; intros [|y ls] En;
        simpl in *; try discriminate.
      - injection En as ->. reflexivity.
      - apply IHk. exact En. }
    rewrite Hsk in Hall |- *. inversion Hall as [|? ? Hl Hrest]; subst.
    destruct (burst_round h h1 l Hf Hl Hcc) as [h2 [E2 [F2 N2]]].
    cbv zeta in E2. rewrite E2. cbn [bind].
    destruct (IH (a + 1) h2 (only_sent_trans _ _ _ Hf F2) ltac:(lia)
                ltac:(lia) Hrest) as [h' [E' [F' N']]].
    exists h'. split; [exact E'|].
    split; [exact (only_sent_trans _ _ _ F2 F')|].
    simpl flat_map. rewrite N', N2, app_assoc. reflexivity.
Qed.

Lemma in_skipn_in {A : Type} (n : nat) (l : list A) (x : A) :
  In x (skipn n l) -> In x l.
Proof.
  revert l. induction n as [|n IH]; intros [|y l] Hin; simpl in *;
    try assumption.
  right. apply IH. exact Hin.
Qed.

(** [checkCompletedLevel] in closed form. *)
Lemma checkCompletedLevel_closed (h : Handel) (s : sigPair) :
  1 <= level s <= len (levels h) ->
  0 <= CandidateCount (h_c h) ->
  Forall level_ok (levels h) ->
  exists h',
    checkCompletedLevel h s = Return h'
    /\ only_sent h h'
    /\ net h'
       = (net h
          ++ flat_map (burst_sends h)
               (skipn (Z.to_nat (level s)) (levels h)))%list.
Proof.
  intros Hlv Hcc Hall. unfold checkCompletedLevel.
  assert (Hb : 0 <= byte_sub (level s) 1 < len (levels h)).
  { unfold byte_sub.
    pose proof (Z.mod_pos_bound (level s - 1) 256 ltac:(lia)).
    pose proof (Z.mod_le (level s - 1) 256 ltac:(lia) ltac:(lia)). lia. }
  destruct (index_Return (levels h) _ Hb) as [l0 [E0 _]].
  rewrite E0. cbn [bind]. unfold upto.
  destruct (burst_loop h (Z.to_nat (len (levels h) - (level s + 1) + 1))
              Hcc (level s + 1) h (only_sent_refl h) ltac:(lia) ltac:(lia))
    as [h' [E [F N]]].
  - replace (level s + 1 - 1) with (level s) by lia.
    clear - Hall. revert Hall. generalize (levels h).
    induction (Z.to_nat (level s)) as [|k IHk]; intros [|y ls] Hall;
      simpl; try assumption; try constructor.
    apply IHk. inversion Hall. assumption.
  - exists h'. split; [exact E|]. split; [exact F|].
    rewrite N. replace (level s + 1 - 1) with (level s) by lia.
    reflexivity.
Qed.

(** X12: for a verified signature of a level between 1 and the number of
    levels, [checkCompletedLevel] returns and sends, for every entry of
    the levels array above that level whose combined signature has
    exactly as many contributions as the entry has candidates, and more
    than its [sendSigSize], one packet to the next [CandidateCount]
    candidates at the entry's cursor, and nothing for the other
    entries; the levels array is afterwards as before. *)
Theorem checkCompletedLevel_sends (h : Handel) (s : sigPair) :
  1 <= level s <= len (levels h) ->
  0 <= CandidateCount (h_c h) ->
  Forall level_ok (levels h) ->
  exists h',
    checkCompletedLevel h s = Return h'
    /\ net h'
       = (net h
          ++ flat_map (burst_sends h)
               (skipn (Z.to_nat (level s)) (levels h)))%list
    /\ levels h' = levels h
    /\ Forall (fun sent => len (fst sent) <= CandidateCount (h_c h))
              (flat_map (burst_sends h)
                 (skipn (Z.to_nat (level s)) (levels h))).
Proof.
  intros Hlv Hcc Hall.
  destruct (checkCompletedLevel_closed h s Hlv Hcc Hall) as [h' [E [F N]]].
  exists h'. split; [exact E|]. split; [exact N|].
  split; [apply (only_sent_fields _ _ F)|].
  apply Forall_flat_map. apply Forall_forall. intros l Hl.
  assert (Hok : level_ok l).
  { rewrite Forall_forall in Hall. apply Hall.
    exact (in_skipn_in _ _ _ Hl). }
  unfold burst_sends, sent_packets. cbv zeta.
  destruct (_ && _); [|constructor].
  destruct (MarshalBinary _); [|constructor].
  constructor; [|constructor]. cbn [fst].
  rewrite len_next_peers by assumption. lia.
Qed.

End DispatchProperties.

(** ** The running aggregator *)

Section RunningAggregator.

Context `{Collaborators}.

(** *** The shape of what the entry points return *)

Lemma NewPacket_shape (h h' : Handel) (p : Packet) :
  NewPacket h p = Return h' ->
  exists st pr, h' = set_proc (set_stats h st) pr.
Proof.
  unfold NewPacket. destruct (done h).
  - intros E. injection E as <-. exists (stats h), (proc h).
    destruct h. reflexivity.
  - destruct (parsePacket h p) as [h1 r] eqn:Ep.
    assert (H1 : h1 = set_stats h (mkHStats (msgSentCt (stats h))
                                      (int_add (msgRcvCt (stats h)) 1))).
    { unfold parsePacket in Ep.
      repeat match type of Ep with
             | (if ?b then _ else _) = _ => destruct b
             | match ?o with Some _ => _ | None => _ end = _ => destruct o
             end;
        injection Ep as <- _; reflexivity. }
    destruct r as [m|msg].
    + destruct (index (levels h1) (byte_sub (PacketLevel p) 1)) as [l| |];
        simpl; try discriminate.
      destruct (negb (rcvCompleted l) || true); intros E;
        injection E as <-; subst h1.
      * exists (mkHStats (msgSentCt (stats h))
                         (int_add (msgRcvCt (stats h)) 1)),
               (proc_enqueue (proc h)
                  {| origin := Origin p; level := PacketLevel p; ms := m |}).
        destruct h. reflexivity.
      * exists (mkHStats (msgSentCt (stats h))
                         (int_add (msgRcvCt (stats h)) 1)), (proc h).
        destruct h. reflexivity.
    + intros E. injection E as <-. subst h1.
      exists (mkHStats (msgSentCt (stats h))
                       (int_add (msgRcvCt (stats h)) 1)), (proc h).
      destruct h. reflexivity.
Qed.

(** [checkFinalSignature] returns the aggregator as it is, or with the
    full signature of the store as new best, put at the end of the open
    output stream. *)
Lemma checkFinalSignature_shape (h h' : Handel) (v : sigPair) :
  checkFinalSignature h v = Return h' ->
  h' = h
  \/ exists m,
       m = store_FullSignature (store h)
       /\ done h = false
       /\ chan_closed (out h) = false
       /\ threshold h <= Cardinality m
       /\ match best h with
          | Some b => Cardinality b < Cardinality m
          | None => True
          end
       /\ h' = set_out (set_best h (Some m))
                 (mkChan (chan_buf (out h) ++ [m]) (chan_cap (out h)) false).
Proof.
  unfold checkFinalSignature.
  set (m := store_FullSignature (store h)).
  change (bs_Cardinality (ms_BitSet m)) with (Cardinality m).
  destruct (Cardinality m <? threshold h) eqn:Et.
  - intros E. injection E as <-. left. reflexivity.
  - apply Z.ltb_ge in Et.
    assert (Hnew : match best h with
                   | Some b => Cardinality b < Cardinality m
                   | None => True
                   end ->
                   newBest h m = Return h' ->
                   h' = h
                   \/ exists m0,
                        m0 = m /\ done h = false
                        /\ chan_closed (out h) = false
                        /\ threshold h <= Cardinality m0
                        /\ match best h with
                           | Some b => Cardinality b < Cardinality m0
                           | None => True
                           end
                        /\ h' = set_out (set_best h (Some m0))
                                  (mkChan (chan_buf (out h) ++ [m0])
                                     (chan_cap (out h)) false)).
    { intros Hb. unfold newBest. destruct (done h) eqn:Ed.
      - intros E. injection E as <-. left. reflexivity.
      - unfold chan_send.
        replace (out (set_best h (Some m))) with (out h)
          by (destruct h; reflexivity).
        destruct (chan_closed (out h)) eqn:Ec; simpl; try discriminate.
        destruct (Z.of_nat (length (chan_buf (out h))) >=? chan_cap (out h));
          simpl; try discriminate.
        intros E. injection E as <-. right. exists m.
        repeat split; assumption. }
    destruct (best h) as [b|] eqn:Eb.
    + rewrite Z.gtb_ltb.
      destruct (Cardinality b <? Cardinality m) eqn:Ec.
      * apply Hnew. apply Z.ltb_lt. exact Ec.
      * intros E. injection E as <-. left. reflexivity.
    + apply Hnew. exact I.
Qed.

Lemma NewHandel_built (r : Registry) (id : Identity) (msg : string)
  (s : Signature) (config : Config) (newStore : signatureStore)
  (h0 : Handel) :
  NewHandel r id msg s config newStore = Return h0 ->
  built r config (levels h0) h0
  /\ createLevels r (NewPartitioner config (ID id) r) = Return (levels h0)
  /\ best h0 = None /\ chan_buf (out h0) = [].
Proof.
  unfold NewHandel.
  destruct (createLevels r (NewPartitioner config (ID id) r)); simpl;
    try discriminate.
  intros E. injection E as <-. cbn. unfold built. cbn. repeat split.
Qed.

Lemma exec_built (r : Registry) (config : Config) (lvls : list Level)
  (h h' : Handel) (e : event) :
  built r config lvls h -> exec h e = Return h' -> built r config lvls h'.
Proof.
  unfold built. intros [Hr [Hc [Hl [Hd Hcap]]]].
  destruct e as [now|p|t|v| |]; simpl.
  - unfold Start. intros E.
    apply periodicUpdate_only_sent, only_sent_fields in E.
    destruct E as [-> [-> [_ [-> [_ [_ [_ [-> [-> _]]]]]]]]].
    destruct h. cbn in *. repeat split; assumption.
  - intros E. apply NewPacket_shape in E. destruct E as [st [pr ->]].
    destruct h. cbn in *. repeat split; assumption.
  - intros E. apply periodicUpdate_only_sent, only_sent_fields in E.
    destruct E as [-> [-> [_ [-> [_ [_ [_ [-> [-> _]]]]]]]]].
    repeat split; assumption.
  - unfold onVerified.
    destruct (checkCompletedLevel _ v) as [h2| |] eqn:E2; simpl;
      try discriminate.
    apply checkCompletedLevel_only_sent, only_sent_fields in E2.
    destruct E2 as [El [Eo [_ [Ed [_ [_ [_ [Ec [Er _]]]]]]]]].
    assert (B2 : reg h2 = r /\ h_c h2 = config /\ levels h2 = lvls
                 /\ chan_closed (out h2) = done h2
                 /\ chan_cap (out h2) = 10000).
    { rewrite Er, Ec, El, Eo, Ed. destruct h. cbn in *.
      repeat split; assumption. }
    intros E. apply checkFinalSignature_shape in E.
    destruct E as [->|[m [_ [Hdn [_ [_ [_ ->]]]]]]]; [exact B2|].
    destruct B2 as [B1 [B2 [B3 [B4 B5]]]].
    destruct h2. cbn in *. repeat split; try assumption. congruence.
  - unfold Stop, chan_close. cbn [set_done set_proc set_ticker_stopped out].
    destruct (chan_closed (out h)); simpl; try discriminate.
    intros E. injection E as <-. destruct h. cbn in *.
    repeat split; assumption.
  - destruct (chan_recv (out h)) as [[m ch]|] eqn:Er.
    + intros E. injection E as <-. unfold chan_recv in Er.
      destruct (chan_buf (out h)); [discriminate|].
      injection Er as _ <-. destruct h. cbn in *.
      repeat split; assumption.
    + intros E. injection E as <-. repeat split; assumption.
Qed.

Lemma reachable_built (r : Registry) (config : Config) (lvls : list Level)
  (h0 h : Handel) :
  built r config lvls h0 -> reachable h0 h -> built r config lvls h.
Proof.
  intros H0 Hr. induction Hr as [|h e h' _ IH E]; [assumption|].
  exact (exec_built _ _ _ _ _ _ IH E).
Qed.


(** *** Safety of the running aggregator *)

Lemma fresh_level_ok (id : Z) (nds : list Identity) :
  len nds <= max_int -> level_ok (fresh_level id nds).
Proof.
  intros HL. destruct nds as [|x nds]; [right; reflexivity|].
  left. unfold cursor_ok, fresh_level, len in *. cbn in *. lia.
Qed.

(** The levels that [createLevels] builds can be used when the
    partitioner hands out slices. *)
Lemma createLevels_ok (r : Registry) (part : Partitioner)
  (lvls : list Level) :
  (forall lv cnt, len (fst (part lv cnt)) <= max_int) ->
  createLevels r part = Return lvls ->
  Forall level_ok lvls /\ len lvls = log2 (Size r).
Proof.
  intros Hpart E.
  destruct (createLevels_from_spec r part (Z.to_nat (log2 (Size r))) 0
              ltac:(lia)) as [lvls' [E' [Hlen Hnth]]].
  unfold createLevels in E. rewrite E in E'. injection E' as <-.
  assert (0 <= log2 (Size r)) by (unfold log2; apply Z.log2_up_nonneg).
  split; [|unfold len; lia].
  apply Forall_forall. intros l Hin.
  apply In_nth_error in Hin. destruct Hin as [k Hk].
  assert (Hlt : (k < length lvls)%nat)
    by (apply nth_error_Some; rewrite Hk; discriminate).
  rewrite Hnth in Hk by lia. injection Hk as <-.
  apply fresh_level_ok, Hpart.
Qed.

(** X13: an aggregator built by [NewHandel], whose partitioner hands out
    slices and whose [CandidateCount] is not negative, never panics while
    it runs: in every state it reaches, packets, ticks and [Start] return;
    a verified signature of a level in [1 .. log2 N] returns, or cannot
    proceed because the output stream holds 10000 signatures; [Stop]
    returns when [done] is not set and panics when it is. *)
Theorem running_aggregator_never_panics
  (r : Registry) (id : Identity) (msg : string) (s : Signature)
  (config : Config) (newStore : signatureStore) (h0 h : Handel) :
  NewHandel r id msg s config newStore = Return h0 ->
  (forall lv cnt,
     len (fst (NewPartitioner config (ID id) r lv cnt)) <= max_int) ->
  0 <= CandidateCount config ->
  reachable h0 h ->
  (forall p, Packet_wf p -> exists h', NewPacket h p = Return h')
  /\ (forall t, exists h', periodicUpdate h t = Return h')
  /\ (forall now, exists h', Start h now = Return h')
  /\ (forall v, 1 <= level v <= log2 (Size r) ->
        (exists h', onVerified h v = Return h')
        \/ (onVerified h v = Blocked
            /\ 10000 <= len (chan_buf (out h))))
  /\ (done h = false -> exists h', Stop h = Return h')
  /\ (done h = true -> Stop h = Panic "close of closed channel").
Proof.
  intros E0 Hpart Hcc Hr.
  destruct (NewHandel_built _ _ _ _ _ _ _ E0) as [B0 [Ecl _]].
  destruct (createLevels_ok _ _ _ Hpart Ecl) as [Hok Hlen].
  pose proof (reachable_built _ _ _ _ _ B0 Hr) as [Br [Bc [Bl [Bd Bcap]]]].
  rewrite <- Bl in Hok, Hlen. clear Bl B0 Ecl E0 Hr h0.
  split; [|split; [|split; [|split; [|split]]]].
  - (* packets *)
    intros p [_ Hlv]. unfold NewPacket.
    destruct (done h); [eexists; reflexivity|].
    unfold parsePacket.
    replace (reg (set_stats h _)) with (reg h) by (destruct h; reflexivity).
    destruct (Origin p >=? int32_of (Size (reg h)));
      [eexists; reflexivity|].
    destruct ((PacketLevel p <? 1)
              || (PacketLevel p >? log2 (Size (reg h)))) eqn:El;
      [eexists; reflexivity|].
    destruct (Unmarshal (MultiSig p)); [|eexists; reflexivity].
    apply orb_false_iff in El. destruct El as [E1 E2].
    rewrite Z.gtb_ltb in E2. apply Z.ltb_ge in E1, E2.
    replace (levels (set_stats h _)) with (levels h)
      by (destruct h; reflexivity).
    destruct (index_Return (levels h) (byte_sub (PacketLevel p) 1))
      as [l [Ei _]].
    { unfold byte_sub. rewrite Z.mod_small by lia. rewrite Br in E2. lia. }
    rewrite Ei. cbn [bind].
    destruct (negb (rcvCompleted l) || true); eexists; reflexivity.
  - (* ticks *)
    intros t. destruct (periodicUpdate_closed h t Hok) as [h' [E _]].
    exists h'. exact E.
  - (* Start *)
    intros now. unfold Start.
    destruct (periodicUpdate_closed
                (set_proc (set_startTime h now)
                   (proc_Start (proc (set_startTime h now))))
                (startTime (set_proc (set_startTime h now)
                   (proc_Start (proc (set_startTime h now))))))
      as [h' [E _]].
    + destruct h. exact Hok.
    + exists h'. exact E.
  - (* verified signatures *)
    intros v Hv. unfold onVerified.
    set (h1 := set_store h (store_Store (store h) (level v) (ms v))).
    assert (F1 : levels h1 = levels h /\ h_c h1 = h_c h
                 /\ out h1 = out h /\ done h1 = done h)
      by (destruct h; repeat split).
    destruct F1 as [Fl [Fc [Fo Fd]]].
    destruct (checkCompletedLevel_closed h1 v) as [h2 [E2 _]].
    + rewrite Fl. lia.
    + rewrite Fc, Bc. exact Hcc.
    + rewrite Fl. exact Hok.
    + rewrite E2. cbn [bind].
      pose proof (checkCompletedLevel_only_sent _ _ _ E2) as F2.
      apply only_sent_fields in F2.
      destruct F2 as [_ [Eo [_ [Ed [Eb _]]]]].
      unfold checkFinalSignature.
      destruct (_ <? threshold h2); [left; eexists; reflexivity|].
      assert (Hnew : forall m,
                 (exists h', newBest h2 m = Return h')
                 \/ (newBest h2 m = Blocked
                     /\ 10000 <= len (chan_buf (out h)))).
      { intros m. unfold newBest. rewrite Ed, Fd.
        destruct (done h) eqn:Edn; [left; eexists; reflexivity|].
        unfold chan_send.
        replace (out (set_best h2 (Some m))) with (out h2)
          by (destruct h2; reflexivity).
        rewrite Eo, Fo, Bd. cbn [bind].
        rewrite Bcap.
        destruct (Z.of_nat (length (chan_buf (out h))) >=? 10000) eqn:Ecap.
        - right. split; [reflexivity|].
          rewrite Z.geb_leb in Ecap. apply Z.leb_le in Ecap.
          unfold len. exact Ecap.
        - left. eexists. reflexivity. }
      destruct (best h2) as [b|].
      * destruct (_ >? _); [apply Hnew | left; eexists; reflexivity].
      * apply Hnew.
  - (* first Stop *)
    intros Hd. unfold Stop, chan_close.
    cbn [set_done set_proc set_ticker_stopped out].
    rewrite Bd, Hd. cbn [bind]. eexists. reflexivity.
  - (* second Stop *)
    intros Hd. unfold Stop, chan_close.
    cbn [set_done set_proc set_ticker_stopped out].
    rewrite Bd, Hd. reflexivity.
Qed.

(** X14: on a running aggregator that is not done and whose registry fits
    an [int32], a packet whose origin is below the registry size (a
    negative origin included), whose level is in [1 .. log2 N] and whose
    multi-signature unmarshals is counted and put at the end of the
    pipeline, with its origin and level; nothing else changes. *)
Theorem NewPacket_accepts
  (r : Registry) (id : Identity) (msg : string) (s : Signature)
  (config : Config) (newStore : signatureStore) (h0 h : Handel)
  (p : Packet) (m : MultiSignature) :
  NewHandel r id msg s config newStore = Return h0 ->
  reachable h0 h ->
  Size r < 2 ^ 31 ->
  done h = false ->
  Packet_wf p ->
  Origin p < Size r ->
  1 <= PacketLevel p <= log2 (Size r) ->
  Unmarshal (MultiSig p) = Some m ->
  NewPacket h p
  = Return (set_proc
              (set_stats h (mkHStats (msgSentCt (stats h))
                                     (int_add (msgRcvCt (stats h)) 1)))
              (proc_enqueue (proc h)
                 {| origin := Origin p; level := PacketLevel p; ms := m |})).
Proof.
  intros E0 Hr HN Hd [Ho Hlb] Hor Hlv Hm.
  destruct (NewHandel_built _ _ _ _ _ _ _ E0) as [B0 [Ecl _]].
  pose proof (reachable_built _ _ _ _ _ B0 Hr) as [Br [_ [Bl _]]].
  pose proof (createLevels_len _ _ _ Ecl) as Hlen. rewrite <- Bl in Hlen.
  unfold NewPacket. rewrite Hd. unfold parsePacket.
  replace (reg (set_stats h _)) with (reg h) by (destruct h; reflexivity).
  rewrite Br. unfold int32_of.
  assert (0 <= Size r) by (unfold Size; lia).
  rewrite Z.mod_small by lia.
  replace (Origin p >=? Size r + 2 ^ 31 - 2 ^ 31) with false
    by (symmetry; zbool).
  replace (PacketLevel p <? 1) with false by (symmetry; zbool).
  replace (PacketLevel p >? log2 (Size r)) with false by (symmetry; zbool).
  cbv [orb]. rewrite Hm.
  replace (levels (set_stats h _)) with (levels h)
    by (destruct h; reflexivity).
  destruct (index_Return (levels h) (byte_sub (PacketLevel p) 1))
    as [l [Ei _]].
  { unfold byte_sub. rewrite Z.mod_small by lia. lia. }
  rewrite Ei. cbn [bind].
  destruct (rcvCompleted l); destruct h; reflexivity.
Qed.


(** *** The order of the output stream *)

Lemma StronglySorted_snoc {A : Type} (R : A -> A -> Prop) (l : list A)
  (x : A) :
  StronglySorted R l -> Forall (fun y => R y x) l ->
  StronglySorted R (l ++ [x]).
Proof.
  induction l as [|y l IH]; intros Hs Hall; simpl.
  - constructor; constructor.
  - inversion Hs as [|? ? Hs' Hy]; subst.
    inversion Hall as [|? ? Hyx Hall']; subst.
    constructor; [apply IH; assumption|].
    apply Forall_app. split; [assumption|].
    constructor; [assumption | constructor].
Qed.

Lemma exec_out_increasing (h h' : Handel) (e : event) :
  out_increasing h -> exec h e = Return h' -> out_increasing h'.
Proof.
  unfold out_increasing. intros [Hs Hb].
  destruct e as [now|p|t|v| |]; simpl.
  - unfold Start. intros E.
    apply periodicUpdate_only_sent, only_sent_fields in E.
    destruct E as [_ [-> [_ [_ [-> _]]]]]. destruct h. split; assumption.
  - intros E. apply NewPacket_shape in E. destruct E as [st [pr ->]].
    destruct h. split; assumption.
  - intros E. apply periodicUpdate_only_sent, only_sent_fields in E.
    destruct E as [_ [-> [_ [_ [-> _]]]]]. split; assumption.
  - unfold onVerified.
    destruct (checkCompletedLevel _ v) as [h2| |] eqn:E2; simpl;
      try discriminate.
    apply checkCompletedLevel_only_sent, only_sent_fields in E2.
    destruct E2 as [_ [Eo [_ [_ [Eb _]]]]].
    assert (Eo' : out h2 = out h) by (rewrite Eo; destruct h; reflexivity).
    assert (Eb' : best h2 = best h) by (rewrite Eb; destruct h; reflexivity).
    intros E. apply checkFinalSignature_shape in E.
    destruct E as [->|[m [_ [_ [_ [_ [Hgt ->]]]]]]].
    + rewrite Eo', Eb'. split; assumption.
    + rewrite Eb', Eo' in *. destruct h2. cbn in *. subst.
      assert (Hlt : Forall (fun y => Cardinality y < Cardinality m)
                      (chan_buf (out h))).
      { destruct (best h) as [b|].
        - eapply Forall_impl; [|exact Hb]. cbn. intros. lia.
        - rewrite Hb. constructor. }
      split.
      * apply StronglySorted_snoc; assumption.
      * apply Forall_app. split.
        -- eapply Forall_impl; [|exact Hlt]. cbn. intros. lia.
        -- constructor; [lia | constructor].
  - unfold Stop, chan_close. cbn [set_done set_proc set_ticker_stopped out].
    destruct (chan_closed (out h)); simpl; try discriminate.
    intros E. injection E as <-. destruct h. split; assumption.
  - destruct (chan_recv (out h)) as [[m ch]|] eqn:Er.
    + intros E. injection E as <-. unfold chan_recv in Er.
      destruct (chan_buf (out h)) as [|x rest] eqn:Ebuf; [discriminate|].
      injection Er as _ <-.
      replace (best (set_out h _)) with (best h)
        by (destruct h; reflexivity).
      replace (chan_buf (out (set_out h _))) with rest
        by (destruct h; reflexivity).
      inversion Hs; subst. split; [assumption|].
      destruct (best h); [inversion Hb; assumption | discriminate].
    + intros E. injection E as <-. split; assumption.
Qed.

(** X15: on an aggregator built by [NewHandel], in every state it reaches,
    the signatures waiting on the output stream have strictly increasing
    cardinalities, none above that of [best]; and a signature that
    [checkFinalSignature] emits becomes [best] and has strictly more
    contributions than the previous [best] and than every signature
    still waiting on the stream. *)
Theorem emitted_cardinalities_increase
  (r : Registry) (id : Identity) (msg : string) (s : Signature)
  (config : Config) (newStore : signatureStore) (h0 h : Handel) :
  NewHandel r id msg s config newStore = Return h0 ->
  reachable h0 h ->
  out_increasing h
  /\ forall v h',
       checkFinalSignature h v = Return h' ->
       chan_buf (out h') = chan_buf (out h)
       \/ exists m,
            chan_buf (out h') = (chan_buf (out h) ++ [m])%list
            /\ best h' = Some m
            /\ Forall (fun y => Cardinality y < Cardinality m)
                      (chan_buf (out h))
            /\ forall b, best h = Some b -> Cardinality b < Cardinality m.
Proof.
  intros E0 Hr.
  assert (Hinc : out_increasing h).
  { destruct (NewHandel_built _ _ _ _ _ _ _ E0) as [_ [_ [Eb Ebuf]]].
    assert (H0 : out_increasing h0).
    { unfold out_increasing. rewrite Eb, Ebuf. split; [constructor|].
      reflexivity. }
    clear E0 Eb Ebuf.
    induction Hr as [|h e h' _ IH E]; [assumption|].
    exact (exec_out_increasing _ _ _ IH E). }
  split; [exact Hinc|].
  intros v h' E. apply checkFinalSignature_shape in E.
  destruct E as [->|[m [_ [_ [_ [_ [Hgt ->]]]]]]]; [left; reflexivity|].
  right. exists m. destruct Hinc as [_ Hb].
  split; [destruct h; reflexivity|].
  split; [destruct h; reflexivity|].
  destruct (best h) as [b|].
  - split.
    + eapply Forall_impl; [|exact Hb]. cbn. intros. lia.
    + intros b' Eb'. injection Eb' as <-. exact Hgt.
  - rewrite Hb. split; [constructor | discriminate].
Qed.

(** X16: once [done] is set, no event clears it, puts a packet on the
    pipeline, replaces [best] or adds a signature to the output stream;
    only its reader still takes signatures from the stream. *)
Theorem done_is_final (h h' : Handel) (e : event) :
  done h = true ->
  exec h e = Return h' ->
  done h' = true
  /\ Incoming (proc h') = Incoming (proc h)
  /\ best h' = best h
  /\ (chan_buf (out h') = chan_buf (out h)
      \/ e = EvRead
         /\ exists m, chan_buf (out h) = m :: chan_buf (out h')).
Proof.
  intros Hd. destruct e as [now|p|t|v| |]; simpl.
  - unfold Start. intros E.
    apply periodicUpdate_only_sent, only_sent_fields in E.
    destruct E as [_ [-> [_ [-> [-> [_ [-> _]]]]]]].
    destruct h. cbn in *. repeat split; try assumption. left. reflexivity.
  - unfold NewPacket. rewrite Hd. intros E. injection E as <-.
    repeat split; try assumption. left. reflexivity.
  - intros E. apply periodicUpdate_only_sent, only_sent_fields in E.
    destruct E as [_ [-> [_ [-> [-> [_ [-> _]]]]]]].
    repeat split; try assumption. left. reflexivity.
  - unfold onVerified.
    destruct (checkCompletedLevel _ v) as [h2| |] eqn:E2; simpl;
      try discriminate.
    apply checkCompletedLevel_only_sent, only_sent_fields in E2.
    destruct E2 as [_ [Eo [_ [Ed [Eb [_ [Ep _]]]]]]].
    intros E. apply checkFinalSignature_shape in E.
    destruct E as [->|[m [_ [Hdn _]]]].
    + rewrite Ed, Eo, Eb, Ep. destruct h. cbn in *.
      repeat split; try assumption. left. reflexivity.
    + rewrite Ed in Hdn. destruct h. cbn in *. congruence.
  - unfold Stop, chan_close. cbn [set_done set_proc set_ticker_stopped out].
    destruct (chan_closed (out h)); simpl; try discriminate.
    intros E. injection E as <-. destruct h. cbn.
    repeat split. left. reflexivity.
  - destruct (chan_recv (out h)) as [[m ch]|] eqn:Er.
    + intros E. injection E as <-. unfold chan_recv in Er.
      destruct (chan_buf (out h)) as [|x rest] eqn:Ebuf; [discriminate|].
      injection Er as _ <-. destruct h. cbn in *.
      repeat split; try assumption.
      right. split; [reflexivity|]. exists x. reflexivity.
    + intros E. injection E as <-.
      repeat split; try assumption. left. reflexivity.
Qed.

End RunningAggregator.

(** *** The further properties on the sample aggregator *)

Lemma sample_levels_ok : Forall level_ok sample_levels.
Proof.
  unfold sample_levels.
  constructor; [left | constructor; [left | constructor]];
    vm_compute; repeat split; discriminate || reflexivity.
Qed.

Lemma sendUpdate_cases_witness :
  exists h',
    sendUpdate sample_h sample_level 2 = Return h'
    /\ only_sent sample_h h'
    /\ msgSentCt (stats h') = int_add (msgSentCt (stats sample_h)) 1
    /\ msgRcvCt (stats h') = msgRcvCt (stats sample_h)
    /\ net h'
       = (net sample_h
          ++ sent_packets sample_h sample_level
               (next_peers sample_level 2))%list
    /\ len (next_peers sample_level 2)
       = Z.min 2 (len (nodes sample_level)).
Proof.
  apply (@sendUpdate_cases sample_collaborators sample_h sample_level 2).
  - lia.
  - left. vm_compute. repeat split; discriminate || reflexivity.
  - split; [reflexivity | vm_compute; reflexivity].
Defined.


Example tick_sends_sample :
  flat_map (tick_sends sample_h (millis (1000000000 - startTime sample_h)))
    (levels sample_h)
  = [ ([mkIdentity 0 "" ""], mkPacket 1 1 "agg");
      ([mkIdentity 2 "" ""], mkPacket 1 2 "agg") ].
Proof. vm_compute. reflexivity. Qed.

Lemma checkCompletedLevel_sends_witness :
  exists h',
    checkCompletedLevel sample_h_full sample_verified_1 = Return h'
    /\ net h'
       = (net sample_h_full
          ++ flat_map (burst_sends sample_h_full)
               (skipn (Z.to_nat (level sample_verified_1))
                  (levels sample_h_full)))%list
    /\ levels h' = levels sample_h_full
    /\ Forall (fun sent =>
                 len (fst sent) <= CandidateCount (h_c sample_h_full))
              (flat_map (burst_sends sample_h_full)
                 (skipn (Z.to_nat (level sample_verified_1))
                    (levels sample_h_full))).
Proof.
  apply (@checkCompletedLevel_sends sample_collaborators sample_h_full
           sample_verified_1).
  - vm_compute. split; discriminate.
  - vm_compute. discriminate.
  - exact sample_levels_ok.
Defined.

Example burst_sends_sample :
  flat_map (burst_sends sample_h_full)
    (skipn (Z.to_nat (level sample_verified_1)) (levels sample_h_full))
  = [ ([mkIdentity 2 "" ""; mkIdentity 3 "" ""], mkPacket 1 2 "agg") ].
Proof. vm_compute. reflexivity. Qed.

Lemma running_aggregator_never_panics_witness :
  (forall p, Packet_wf p -> exists h', NewPacket sample_h p = Return h')
  /\ (forall t, exists h', periodicUpdate sample_h t = Return h')
  /\ (forall now, exists h', Start sample_h now = Return h')
  /\ (forall v, 1 <= level v <= log2 (Size (FakeRegistry 4)) ->
        (exists h', onVerified sample_h v = Return h')
        \/ (onVerified sample_h v = Blocked
            /\ 10000 <= len (chan_buf (out sample_h))))
  /\ (done sample_h = false -> exists h', Stop sample_h = Return h')
  /\ (done sample_h = true ->
      Stop sample_h = Panic "close of closed channel").
Proof.
  apply (@running_aggregator_never_panics sample_collaborators
           (FakeRegistry 4) (mkIdentity 1 "" "") "msg" "sig1" sample_config
           [] sample_h sample_h).
  - vm_compute. reflexivity.
  - intros lv cnt. apply binomialPartitioner_bounded.
    vm_compute. discriminate.
  - vm_compute. discriminate.
  - apply reach_init.
Defined.

Lemma NewPacket_accepts_witness :
  NewPacket sample_h sample_good_packet
  = Return (set_proc
              (set_stats sample_h
                 (mkHStats (msgSentCt (stats sample_h))
                           (int_add (msgRcvCt (stats sample_h)) 1)))
              (proc_enqueue (proc sample_h)
                 {| origin := 2; level := 2;
                    ms := {| ms_BitSet := [true]; ms_Signature := "ms" |} |})).
Proof.
  apply (@NewPacket_accepts sample_collaborators
           (FakeRegistry 4) (mkIdentity 1 "" "") "msg" "sig1" sample_config
           [] sample_h sample_h sample_good_packet).
  - vm_compute. reflexivity.
  - apply reach_init.
  - vm_compute. reflexivity.
  - reflexivity.
  - unfold Packet_wf. simpl. lia.
  - vm_compute. reflexivity.
  - vm_compute. split; discriminate.
  - reflexivity.
Defined.

Lemma emitted_cardinalities_increase_witness :
  exists h,
    exec sample_h (EvVerified sample_verified) = Return h
    /\ map Cardinality (chan_buf (out h)) = [3]
    /\ out_increasing h
    /\ forall v h',
         checkFinalSignature h v = Return h' ->
         chan_buf (out h') = chan_buf (out h)
         \/ exists m,
              chan_buf (out h') = (chan_buf (out h) ++ [m])%list
              /\ best h' = Some m
              /\ Forall (fun y => Cardinality y < Cardinality m)
                        (chan_buf (out h))
              /\ forall b, best h = Some b ->
                           Cardinality b < Cardinality m.
Proof.
  let r := eval vm_compute in (exec sample_h (EvVerified sample_verified)) in
  match r with
  | Return ?h =>
    assert (E1 : exec sample_h (EvVerified sample_verified) = Return h)
      by (vm_compute; reflexivity);
    exists h
  end.
  split; [exact E1|]. split; [vm_compute; reflexivity|].
  apply (@emitted_cardinalities_increase sample_collaborators
           (FakeRegistry 4) (mkIdentity 1 "" "") "msg" "sig1" sample_config
           [] sample_h).
  - vm_compute. reflexivity.
  - eapply reach_step; [apply reach_init | exact E1].
Defined.

Lemma done_is_final_witness :
  exists h',
    exec (set_done sample_h true) (EvVerified sample_verified) = Return h'
    /\ done h' = true
    /\ Incoming (proc h') = Incoming (proc (set_done sample_h true))
    /\ best h' = best (set_done sample_h true)
    /\ (chan_buf (out h') = chan_buf (out (set_done sample_h true))
        \/ EvVerified sample_verified = EvRead
           /\ exists m,
                chan_buf (out (set_done sample_h true))
                = m :: chan_buf (out h')).
Proof.
  let r := eval vm_compute in
             (exec (set_done sample_h true) (EvVerified sample_verified)) in
  match r with
  | Return ?h' =>
    assert (E1 : exec (set_done sample_h true) (EvVerified sample_verified)
                 = Return h') by (vm_compute; reflexivity);
    exists h'
  end.
  split; [exact E1|].
  apply (@done_is_final sample_collaborators (set_done sample_h true) _
           (EvVerified sample_verified)).
  - reflexivity.
  - exact E1.
Defined.

(** ** Start *)

Section StartProperties.

Context `{Collaborators}.

(** At the start no timeout has passed: a level above 1, as built by
    [createLevels], sends nothing. *)
Lemma tick_sends_upper_levels (h : Handel) (r : Registry)
  (part : Partitioner) (n : nat) :
  0 < millis (LevelTimeout (h_c h)) ->
  forall i lvls,
    1 <= i ->
    (i + Z.of_nat n) * millis (LevelTimeout (h_c h)) <= max_int ->
    createLevels_from r part i n = Return lvls ->
    flat_map (tick_sends h 0) lvls = [].
Proof.
  intros Hms. induction n as [|n IH]; intros i lvls Hi Hb E.
  - simpl in E. injection E as <-. reflexivity.
  - simpl createLevels_from in E.
    destruct (part (i + 1) (Size r + 1)) as [nds ok].
    unfold NewLevel in E.
    replace (i + 1 <=? 0) with false in E by (symmetry; zbool).
    cbn [bind] in E.
    destruct (createLevels_from r part (i + 1) n) as [rest| |] eqn:Er;
      cbn [bind] in E; try discriminate.
    injection E as <-. simpl flat_map.
    rewrite (IH (i + 1) rest) by (assumption || lia || nia).
    rewrite app_nil_r.
    unfold tick_sends. cbn [sendStarted level_id sendPeersCt nodes].
    replace (i + 1 =? 1) with false by (symmetry; zbool).
    assert (Hprod : 0 < i * millis (LevelTimeout (h_c h)) <= max_int)
      by (unfold max_int in *; nia).
    unfold int_sub, int_mul.
    replace (i + 1 - 1) with i by lia.
    rewrite (wrap_int_small i) by (unfold min_int, max_int in *; nia).
    rewrite wrap_int_small by (unfold min_int, max_int in *; lia).
    replace (0 >=? i * millis (LevelTimeout (h_c h))) with false
      by (symmetry; zbool).
    reflexivity.
Qed.

(** X17: [Start] on a running aggregator, with a level timeout of at least
    one millisecond, records the start time and sends exactly one packet:
    the signature combined below level 1, to the first candidate of
    level 1 (nothing when level 1 has no candidate or the signature does
    not marshal); no higher level sends at the start. *)
Theorem Start_sends_level_1
  (r : Registry) (id : Identity) (msg : string) (s : Signature)
  (config : Config) (newStore : signatureStore) (h0 h : Handel)
  (now : Z) :
  NewHandel r id msg s config newStore = Return h0 ->
  (forall lv cnt,
     len (fst (NewPartitioner config (ID id) r lv cnt)) <= max_int) ->
  0 < millis (LevelTimeout config) ->
  log2 (Size r) * millis (LevelTimeout config) <= max_int ->
  reachable h0 h ->
  exists h',
    Start h now = Return h'
    /\ startTime h' = now
    /\ net h'
       = (net h
          ++ match levels h with
             | [] => []
             | l1 :: _ =>
               if 0 <? len (nodes l1)
               then sent_packets h l1 (firstn 1 (nodes l1))
               else []
             end)%list.
Proof.
  intros E0 Hpart Hms Hprod Hr.
  destruct (NewHandel_built _ _ _ _ _ _ _ E0) as [B0 [Ecl _]].
  destruct (createLevels_ok _ _ _ Hpart Ecl) as [Hok Hlen].
  pose proof (reachable_built _ _ _ _ _ B0 Hr) as [Br [Bc [Bl _]]].
  rewrite <- Bl in Hok, Ecl. clear Bl B0 E0 Hr h0 Hlen.
  unfold Start.
  set (h2 := set_proc (set_startTime h now)
               (proc_Start (proc (set_startTime h now)))).
  assert (F2 : levels h2 = levels h /\ startTime h2 = now
               /\ net h2 = net h /\ h_c h2 = h_c h
               /\ store h2 = store h /\ h_id h2 = h_id h)
    by (destruct h; repeat split).
  destruct F2 as [Fl [Ft [Fn [Fc [Fs Fi]]]]].
  destruct (periodicUpdate_closed h2 (startTime h2)) as [h' [E [F N]]].
  { rewrite Fl. exact Hok. }
  exists h'. split; [exact E|].
  split.
  { apply only_sent_fields in F.
    destruct F as [_ [_ [_ [_ [_ [_ [_ [_ [_ [-> _]]]]]]]]]]. exact Ft. }
  rewrite N, Fn, Fl, Z.sub_diag. f_equal.
  change (millis 0) with 0.
  unfold createLevels in Ecl.
  destruct (Z.to_nat (log2 (Size r))) as [|n] eqn:En.
  - simpl in Ecl. injection Ecl as Ecl. rewrite <- Ecl. reflexivity.
  - simpl createLevels_from in Ecl.
    destruct (NewPartitioner config (ID id) r 1 (Size r + 1))
      as [nds ok] eqn:Ep.
    destruct (createLevels_from r (NewPartitioner config (ID id) r) 1 n)
      as [rest| |] eqn:Er; cbn [bind] in Ecl; try discriminate.
    injection Ecl as Ecl. rewrite <- Ecl. simpl flat_map.
    rewrite (tick_sends_upper_levels h2 r
               (NewPartitioner config (ID id) r) n) with (i := 1)
                                                          (lvls := rest);
      [ | rewrite Fc, Bc; exact Hms | lia
        | rewrite Fc, Bc; nia | exact Er ].
    rewrite app_nil_r.
    unfold tick_sends. cbn [sendStarted level_id sendPeersCt nodes].
    cbn [orb andb].
    assert (HL : len nds <= max_int).
    { pose proof (Hpart 1 (Size r + 1)) as Hp.
      rewrite Ep in Hp. exact Hp. }
    destruct (0 <? len nds) eqn:E0; [|reflexivity].
    apply Z.ltb_lt in E0.
    unfold sent_packets, next_peers, rotate_from.
    cbn [sendPos nodes level_id]. rewrite Fs, Fi.
    rewrite Z.min_l by lia. simpl skipn. simpl (firstn (Z.to_nat 0) nds).
    rewrite app_nil_r. reflexivity.
Qed.

End StartProperties.

Lemma Start_sends_level_1_witness :
  exists h',
    Start sample_h 7 = Return h'
    /\ startTime h' = 7
    /\ net h'
       = (net sample_h
          ++ match levels sample_h with
             | [] => []
             | l1 :: _ =>
               if 0 <? len (nodes l1)
               then sent_packets sample_h l1 (firstn 1 (nodes l1))
               else []
             end)%list.
Proof.
  apply (@Start_sends_level_1 sample_collaborators
           (FakeRegistry 4) (mkIdentity 1 "" "") "msg" "sig1" sample_config
           [] sample_h sample_h 7).
  - vm_compute. reflexivity.
  - intros lv cnt. apply binomialPartitioner_bounded.
    vm_compute. discriminate.
  - vm_compute. reflexivity.
  - vm_compute. discriminate.
  - apply reach_init.
Defined.
